(** * MotoEvento: guest upload, persistence and guest table

    A shallow embedding of the data handling of the guest-validation page:
    - [CSVUploader.tsx]: [processCSVFile] (the parser configuration) and
      [saveGuestsToSupabase] (delete-then-insert against the [guests] table);
    - the migration that creates [public.guests] with its unique index;
    - [GuestTable.tsx], in its two versions (the grid with sticky columns and
      the accordion for small screens): [loadGuestsFromSupabase],
      [currentData], [filteredData], [handleConfirmGuest], [getGuestId] and
      [getOrderedHeaders].

    JavaScript strings are Rocq strings holding the UTF-8 encoding of the
    text; arrays are lists; the [Set] of confirmed identifiers is a [gset];
    a row object is a finite map from column names to cells; the table of
    the store is the list of its records, and every request to the store
    takes the failure it meets, if any, as an argument. *)

From Stdlib Require Import ZArith.
From stdpp Require Import base decidable list strings pretty gmap sorting.

(** ** JavaScript strings *)

Module Js.

Definition byte (n : nat) : Ascii.ascii := Ascii.ascii_of_nat n.

Definition code (c : Ascii.ascii) : nat := Ascii.nat_of_ascii c.

Definition bytes (l : list nat) : string :=
  fold_right (λ n s, String (byte n) s) EmptyString l.

Definition between (lo hi : nat) (c : Ascii.ascii) : bool :=
  (lo <=? code c)%nat && (code c <=? hi)%nat.

Definition shift32 (c : Ascii.ascii) : Ascii.ascii := byte (code c + 32).

(** [String.prototype.toLowerCase] on the UTF-8 encoding. The letters A-Z
    and the capital letters of Latin-1 (U+00C0 to U+00DE without the
    multiplication sign U+00D7, encoded as C3 80 to C3 9E) are mapped to
    their small letters; this is the alphabet of the column names of the
    program. Every other byte is kept: on a capital letter outside this
    alphabet (of Latin Extended-A, Greek or Cyrillic, say) the model leaves
    the text as it is where the engine would give the small letter. *)
Fixpoint toLowerCase (s : string) : string :=
  match s with
  | EmptyString => EmptyString
  | String c rest =>
      if between 65 90 c then String (shift32 c) (toLowerCase rest)
      else if (code c =? 195)%nat then
        match rest with
        | String d rest' =>
            if between 128 158 d && negb (code d =? 151)%nat
            then String c (String (shift32 d) (toLowerCase rest'))
            else String c (toLowerCase rest)
        | EmptyString => String c EmptyString
        end
      else String c (toLowerCase rest)
  end.

(** The white space and line terminators of ECMAScript, UTF-8 encoded:
    TAB, LF, VT, FF, CR, SP, U+00A0, U+1680, U+2000 to U+200A, U+2028,
    U+2029, U+202F, U+205F, U+3000 and U+FEFF. *)
Definition whiteSpace : list string :=
  map bytes
    ([[9]; [10]; [11]; [12]; [13]; [32]; [194; 160]; [225; 154; 128]]
     ++ map (λ k, [226; 128; 128 + k]) (seq 0 11)
     ++ [[226; 128; 168]; [226; 128; 169]; [226; 128; 175];
         [226; 129; 159]; [227; 128; 128]; [239; 187; 191]]).

Fixpoint stripPrefix (p s : string) : option string :=
  match p, s with
  | EmptyString, _ => Some s
  | String a p', String b s' =>
      if Ascii.eqb a b then stripPrefix p' s' else None
  | String _ _, EmptyString => None
  end.

Fixpoint firstSome {A B} (f : A → option B) (l : list A) : option B :=
  match l with
  | [] => None
  | x :: l' => match f x with Some y => Some y | None => firstSome f l' end
  end.

Fixpoint dropWhite (ws : list string) (fuel : nat) (s : string) : string :=
  match fuel with
  | O => s
  | S fuel' =>
      match firstSome (λ w, stripPrefix w s) ws with
      | Some s' => dropWhite ws fuel' s'
      | None => s
      end
  end.

Definition trimStart (s : string) : string :=
  dropWhite whiteSpace (String.length s) s.

Definition trimEnd (s : string) : string :=
  String.rev
    (dropWhite (map String.rev whiteSpace) (String.length s) (String.rev s)).

(** [String.prototype.trim] *)
Definition trim (s : string) : string := trimEnd (trimStart s).

(** [String.prototype.startsWith] *)
Fixpoint startsWith (s p : string) : bool :=
  match p, s with
  | EmptyString, _ => true
  | String a p', String b s' => Ascii.eqb a b && startsWith s' p'
  | String _ _, EmptyString => false
  end.

(** [String.prototype.includes]: [sub] occurs in [s] at some position. *)
Fixpoint includes (s sub : string) : bool :=
  startsWith s sub
  || match s with
     | EmptyString => false
     | String _ rest => includes rest sub
     end.

(** A string in a condition: the empty string is falsy. *)
Definition truthy (s : string) : bool := negb (String.eqb s "").

(** [Array.prototype.includes] on an array of strings. *)
Definition arrayIncludes (l : list string) (x : string) : bool :=
  bool_decide (x ∈ l).

End Js.

(** ** GuestTable.tsx, [getOrderedHeaders] *)

(** The preferred order, the same array in both versions of the table. *)
Definition desiredOrder : list string :=
  [ "DNI"; "Apellido"; "Nombre"; "Apellido y Nombre"; "Grupo sanguíneo";
    "Teléfono"; "Venís acompañado"; "Apellido y Nombre del acompañante";
    "DNI Acompañante"; "Contacto de Emergencia"; "Tenés carnet Vigente?";
    "Tenés Seguro vigente?"; "Cena show día sábado 11 (no incluye bebida)";
    "Tenés alguna restricción alimentaria?"; "Moto en la que venís";
    "Ciudad de donde nos visitas"; "Provincia"; "Sos alérgico a algo?";
    "A que sos alérgico?"; "Vas a realizar las rodadas" ].

(** [if (cond && !orderedHeaders.includes(h)) orderedHeaders.push(h)] *)
Definition pushUnlessIncluded (cond : bool) (orderedHeaders : list string)
    (h : string) : list string :=
  if negb (Js.arrayIncludes orderedHeaders h) && cond
  then orderedHeaders ++ [h]
  else orderedHeaders.

(** Pass 1, exact matches:
    [headers.find(h => h.trim().toLowerCase() === desiredHeader.trim().toLowerCase())],
    pushed when found, truthy and not yet in [orderedHeaders]. *)
Definition exactPass (desired headers orderedHeaders : list string)
    : list string :=
  fold_left
    (λ acc desiredHeader,
       match
         find (λ h, bool_decide (Js.toLowerCase (Js.trim h)
                                 = Js.toLowerCase (Js.trim desiredHeader)))
              headers
       with
       | Some exact => pushUnlessIncluded (Js.truthy exact) acc exact
       | None => acc
       end)
    desired orderedHeaders.

(** Pass 2, partial matches: for every preferred name, every header not yet
    placed for which [partial desiredHeader h] holds is pushed. The two
    versions of the table differ in [partial] only. *)
Definition partialPass (partial : string → string → bool)
    (desired headers orderedHeaders : list string) : list string :=
  fold_left
    (λ acc desiredHeader,
       fold_left
         (λ acc' h, pushUnlessIncluded (partial desiredHeader h) acc' h)
         headers acc)
    desired orderedHeaders.

(** Pass 3: every header not yet placed, in the order of [headers]. *)
Definition restPass (headers orderedHeaders : list string) : list string :=
  fold_left (λ acc h, pushUnlessIncluded true acc h) headers orderedHeaders.

(** The grid with sticky columns. *)
Module GridTable.

Definition partialMatch (desiredHeader h : string) : bool :=
  Js.includes (Js.toLowerCase h) (Js.toLowerCase desiredHeader)
  || Js.includes (Js.toLowerCase desiredHeader) (Js.toLowerCase h).

Definition getOrderedHeadersFor (desired headers : list string)
    : list string :=
  restPass headers
    (partialPass partialMatch desired headers
       (exactPass desired headers [])).

Definition getOrderedHeaders (headers : list string) : list string :=
  getOrderedHeadersFor desiredOrder headers.

End GridTable.

(** The accordion for small screens. Its second disjunct asks whether the
    array [desiredOrder] has the trimmed, lower-cased header as an element. *)
Module AccordionTable.

Definition partialMatch (desired : list string) (desiredHeader h : string)
    : bool :=
  Js.includes (Js.toLowerCase h) (Js.toLowerCase desiredHeader)
  || Js.arrayIncludes desired (Js.toLowerCase (Js.trim h)).

Definition getOrderedHeadersFor (desired headers : list string)
    : list string :=
  restPass headers
    (partialPass (partialMatch desired) desired headers
       (exactPass desired headers [])).

Definition getOrderedHeaders (headers : list string) : list string :=
  getOrderedHeadersFor desiredOrder headers.

End AccordionTable.

(** ** JavaScript values, rows *)

(** The values a cell can hold. Numbers are the integers, printed in
    decimal; a cell never holds a fraction or a date in the statements
    below. *)
Inductive JsValue :=
| JUndefined
| JNull
| JBool (b : bool)
| JNum (n : Z)
| JStr (s : string).

#[global] Instance JsValue_eq_dec : EqDecision JsValue.
Proof. solve_decision. Defined.

(** A row object: column name to cell. *)
Abbreviation Row := (gmap string JsValue).

Module Obj.

(** [row[key]] *)
Definition get (row : Row) (key : string) : JsValue :=
  default JUndefined (row !! key).

(** [Object.values(row)] *)
Definition values (row : Row) : list JsValue := (map_to_list row).*2.

(** [value?.toString()]: [None] is the [undefined] of the optional chain. *)
Definition toString (value : JsValue) : option string :=
  match value with
  | JUndefined | JNull => None
  | JBool b => Some (if b then "true" else "false")
  | JNum n => Some (pretty n)
  | JStr s => Some s
  end.

(** A value in a condition. *)
Definition truthy (value : JsValue) : bool :=
  match value with
  | JUndefined | JNull => false
  | JBool b => b
  | JNum n => negb (n =? 0)%Z
  | JStr s => Js.truthy s
  end.

End Obj.

(** ** The [guests] table (migration 20250926230309) *)

Definition Timestamp := Z.

Module Guest.

(** A row of [public.guests]. *)
Record t := mk {
  id : string;
  guest_id : string;
  guest_data : Row;
  confirmed : bool;
  confirmed_at : option Timestamp;
  created_at : Timestamp;
  updated_at : Timestamp
}.

End Guest.

(** The payload of an insert: the columns the uploader provides. *)
Record NewGuest := {
  new_guest_id : string;
  new_guest_data : Row;
  new_confirmed : bool
}.

Module Supabase.

Abbreviation Table := (list Guest.t).

(** The outcome a request meets: [Some message] when the request fails on
    its way (network, service); the table is then left as it was and the
    client returns the message in the [error] field of its result. *)
Abbreviation Fault := (option string).

(** The message of the store for a violated unique index; the name of the
    index stands between double quotes (the character 34). *)
Definition uniqueViolation : string :=
  "duplicate key value violates unique constraint "
  +:+ String (Ascii.ascii_of_nat 34) "idx_guests_guest_id"
  +:+ String (Ascii.ascii_of_nat 34) "".

(** [.delete().neq('id', v)]: the rows whose [id] differs from [v] go. *)
Definition deleteWhereIdNeq (fault : Fault) (v : string) (t : Table)
    : Fault * Table :=
  match fault with
  | Some e => (Some e, t)
  | None => (None, filter (λ r, Guest.id r = v) t)
  end.

(** The defaults of the table: [id] from [gen_random_uuid()], [confirmed_at]
    null, [created_at] and [updated_at] [now()]. *)
Definition withDefaults (uuid : nat → string) (now : Timestamp) (k : nat)
    (g : NewGuest) : Guest.t :=
  Guest.mk (uuid k) (new_guest_id g) (new_guest_data g) (new_confirmed g)
           None now now.

(** [.insert(rows)]: one statement; the unique index [idx_guests_guest_id]
    rejects the whole batch when a [guest_id] would occur twice. *)
Definition insertRows (fault : Fault) (uuid : nat → string) (now : Timestamp)
    (rows : list NewGuest) (t : Table) : Fault * Table :=
  match fault with
  | Some e => (Some e, t)
  | None =>
      let t' := (t ++ imap (withDefaults uuid now) rows)%list in
      if bool_decide (NoDup (Guest.guest_id <$> t'))
      then (None, t')
      else (Some uniqueViolation, t)
  end.

(** What the update does to one row: a row with [guest_id = g] gets the
    new [confirmed] and [confirmed_at], and [updated_at] from the trigger. *)
Definition setConfirmed (now : Timestamp) (g : string) (c : bool)
    (at_ : option Timestamp) (r : Guest.t) : Guest.t :=
  if bool_decide (Guest.guest_id r = g)
  then Guest.mk (Guest.id r) (Guest.guest_id r) (Guest.guest_data r)
         c at_ (Guest.created_at r) now
  else r.

(** [.update({confirmed, confirmed_at}).eq('guest_id', g)]; the trigger
    [update_guests_updated_at] stamps every row it changes. A filter that
    matches no row is no error. The table is a list and the update maps
    over it; the store itself gives its rows no order, and only
    [selectOrderByCreatedAt] reads them in one. *)
Definition updateWhereGuestIdEq (fault : Fault) (now : Timestamp)
    (g : string) (c : bool) (at_ : option Timestamp) (t : Table)
    : Fault * Table :=
  match fault with
  | Some e => (Some e, t)
  | None =>
      (None, setConfirmed now g c at_ <$> t)
  end.

Definition createdBefore (r1 r2 : Guest.t) : Prop :=
  (Guest.created_at r1 ≤ Guest.created_at r2)%Z.

#[global] Instance createdBefore_dec r1 r2 : Decision (createdBefore r1 r2).
Proof. unfold createdBefore. apply _. Defined.

(** [.select('*').order('created_at', { ascending: true })] *)
Definition selectOrderByCreatedAt (fault : Fault) (t : Table)
    : Fault * Table :=
  match fault with
  | Some e => (Some e, [])
  | None => (None, merge_sort createdBefore t)
  end.

End Supabase.

(** A notification shown to the user. *)
Record Toast := {
  title : string;
  description : string;
  destructive : bool
}.

(** ** CSVUploader.tsx *)

Module CSVUploader.

(** The options [processCSVFile] hands to the parser. *)
Record ParseConfig := {
  header : bool;
  skipEmptyLines : bool;
  dynamicTyping : bool;
  encoding : string;
  delimitersToGuess : list string
}.

Definition processCSVFile_config : ParseConfig :=
  {| header := true;
     skipEmptyLines := true;
     dynamicTyping := true;
     encoding := "UTF-8";
     delimitersToGuess := [","; ";"; Js.bytes [9]; "|"] |}.

Definition isDigit (c : Ascii.ascii) : bool := Js.between 48 57 c.

Definition chars (s : string) : list Ascii.ascii := String.list_ascii_of_string s.

(** The number written by a list of digits. *)
Definition digitsValue (digits : list Ascii.ascii) : Z :=
  fold_left (λ acc c, acc * 10 + Z.of_nat (Js.code c - 48))%Z digits 0%Z.

Definition decimal (s : string) : Z := digitsValue (chars s).

(** The character with code [n]. *)
Definition isChar (n : nat) (c : Ascii.ascii) : bool := (Js.code c =? n)%nat.

(** The longest run of digits at the head of a text, and what follows. *)
Fixpoint takeDigits (l : list Ascii.ascii)
    : list Ascii.ascii * list Ascii.ascii :=
  match l with
  | c :: l' =>
      if isDigit c
      then let '(d, r) := takeDigits l' in (c :: d, r)
      else ([], l)
  | [] => ([], [])
  end.

(** [([eE][-+]?\d+)?] up to the end of the text: [Some true] for an
    exponent, [Some false] for the end of the text, [None] for other text. *)
Definition exponent (l : list Ascii.ascii) : option bool :=
  match l with
  | [] => Some false
  | c :: l1 =>
      if isChar 101 c || isChar 69 c then
        let l2 :=
          match l1 with
          | s :: r => if isChar 45 s || isChar 43 s then r else l1
          | [] => l1
          end in
        let '(d, r) := takeDigits l2 in
        if bool_decide (d ≠ []) && bool_decide (r = []) then Some true
        else None
      else None
  end.

(** How a trimmed text reads as a number. *)
Inductive NumberShape :=
| NotNumber
| IntegerText (negative : bool) (digits : list Ascii.ascii)
| FloatText.

(** The test of the parser for numeric text,
    [-?(\d+\.?|\.\d+|\d+\.\d+)([eE][-+]?\d+)?], on the text without the
    white space around it. A text of digits with at most a sign and a last
    dot is an integer; one with digits after the dot or with an exponent is
    read by [parseFloat] as a floating-point number. *)
Definition numberShape (l : list Ascii.ascii) : NumberShape :=
  let '(negative, l1) :=
    match l with
    | c :: r => if isChar 45 c then (true, r) else (false, l)
    | [] => (false, l)
    end in
  let '(d1, l2) := takeDigits l1 in
  let '(dot, l3) :=
    match l2 with
    | c :: r => if isChar 46 c then (true, r) else (false, l2)
    | [] => (false, l2)
    end in
  let '(d2, l4) := if dot then takeDigits l3 else ([], l3) in
  if bool_decide (d1 ≠ []) || dot && bool_decide (d2 ≠ [])
  then match exponent l4 with
       | None => NotNumber
       | Some e =>
           if e || bool_decide (d2 ≠ []) || bool_decide (d1 = [])
           then FloatText
           else IntegerText negative d1
       end
  else NotNumber.

(** A text starts with characters of the given classes, one each; what
    follows them. *)
Fixpoint matchClasses (classes : list (Ascii.ascii → bool))
    (l : list Ascii.ascii) : option (list Ascii.ascii) :=
  match classes, l with
  | [], _ => Some l
  | cl :: cs, c :: l' => if cl c then matchClasses cs l' else None
  | _ :: _, [] => None
  end.

(** [([+-][0-2]\d:[0-5]\d|Z)] up to the end of the text. *)
Definition zone (l : list Ascii.ascii) : bool :=
  match l with
  | [c] => isChar 90 c
  | _ =>
      match
        matchClasses
          [(λ c, isChar 43 c || isChar 45 c); Js.between 48 50; isDigit; isChar 58;
           Js.between 48 53; isDigit] l
      with
      | Some [] => true
      | _ => false
      end
  end.

(** The test of the parser for a date:
    [\d{4}-[01]\d-[0-3]\dT[0-2]\d:[0-5]\d], then optional seconds
    [:[0-5]\d] with an optional fraction [\.\d+], then the zone. *)
Definition isoDate (l : list Ascii.ascii) : bool :=
  match
    matchClasses
      [isDigit; isDigit; isDigit; isDigit; isChar 45; Js.between 48 49; isDigit;
       isChar 45; Js.between 48 51; isDigit; isChar 84; Js.between 48 50; isDigit;
       isChar 58; Js.between 48 53; isDigit] l
  with
  | None => false
  | Some r =>
      match matchClasses [isChar 58; Js.between 48 53; isDigit] r with
      | Some r1 =>
          match r1 with
          | c :: r2 =>
              if isChar 46 c
              then let '(d, r3) := takeDigits r2 in
                   bool_decide (d ≠ []) && zone r3
              else zone r1
          | [] => false
          end
      | None => zone r
      end
  end.

(** Numbers are converted between these bounds only. *)
Definition maxFloat : Z := 2 ^ 53.

(** The last two tests of the parser: a date becomes a [Date] object
    ([None] here), the empty text null, any other text stays as it is. *)
Definition dateOrText (value : string) : option JsValue :=
  if isoDate (chars value) then None
  else if bool_decide (value = "") then Some JNull
  else Some (JStr value).

(** What the parser (Papa Parse, a dependency of the program) does with the
    text of one cell when [dynamicTyping] is on, test by test as its
    [parseDynamic] does: the words true and false become booleans; numeric
    text strictly between -2^53 and 2^53 becomes a number; a date in the
    ISO format becomes a [Date]; the empty text becomes null; every other
    text stays the string it is. The result is [None] for the values that
    are no cell values of this development: floating-point numbers and
    dates. *)
Definition parseDynamic (value : string) : option JsValue :=
  if bool_decide (value = "true" ∨ value = "TRUE") then Some (JBool true)
  else if bool_decide (value = "false" ∨ value = "FALSE")
  then Some (JBool false)
  else
    match numberShape (chars (Js.trim value)) with
    | IntegerText negative digits =>
        let n := (if negative then - digitsValue digits
                  else digitsValue digits)%Z in
        if bool_decide (- maxFloat < n < maxFloat)%Z then Some (JNum n)
        else dateOrText value
    | FloatText => None
    | NotNumber => dateOrText value
    end.

(** The value stored for a cell text under a parser configuration. *)
Definition parseCell (config : ParseConfig) (value : string)
    : option JsValue :=
  if dynamicTyping config then parseDynamic value else Some (JStr value).

(** The test of [headers.find] for the column that holds an identifier. *)
Definition isIdHeader (header : string) : bool :=
  Js.includes (Js.toLowerCase header) "id"
  || Js.includes (Js.toLowerCase header) "código"
  || Js.includes (Js.toLowerCase header) "codigo".

(** [`guest_${index + 1}`] *)
Definition guestN (index : nat) : string := "guest_" +:+ pretty (index + 1).

(** The identifier computed inside [guestsToInsert]:
    [idField ? row[idField]?.toString() || `guest_${index + 1}`
             : `guest_${index + 1}`]. *)
Definition guestIdOf (headers : list string) (row : Row) (index : nat)
    : string :=
  match find isIdHeader headers with
  | Some idField =>
      if Js.truthy idField
      then match Obj.toString (Obj.get row idField) with
           | Some s => if Js.truthy s then s else guestN index
           | None => guestN index
           end
      else guestN index
  | None => guestN index
  end.

Definition newGuest (headers : list string) (index : nat) (row : Row)
    : NewGuest :=
  {| new_guest_id := guestIdOf headers row index;
     new_guest_data := row;
     new_confirmed := false |}.

Definition guestsToInsert (data : list Row) (headers : list string)
    : list NewGuest :=
  imap (newGuest headers) data.

Definition nilUuid : string := "00000000-0000-0000-0000-000000000000".

(** What the service does during one call of [saveGuestsToSupabase]. *)
Record Service := {
  deleteFault : Supabase.Fault;
  insertFault : Supabase.Fault;
  gen_random_uuid : nat → string;
  now : Timestamp
}.

(** [saveGuestsToSupabase]: the table afterwards and the toast shown. The
    result of the delete is awaited and dropped; the [error] of the insert
    is thrown and caught by the function itself. *)
Definition saveGuestsToSupabase (svc : Service) (data : list Row)
    (headers : list string) (t : Supabase.Table) : Supabase.Table * Toast :=
  let t1 := (Supabase.deleteWhereIdNeq (deleteFault svc) nilUuid t).2 in
  let rows := guestsToInsert data headers in
  match Supabase.insertRows (insertFault svc) (gen_random_uuid svc) (now svc)
          rows t1 with
  | (Some message, t2) =>
      (t2, {| title := "Error al guardar";
              description :=
                if Js.truthy message then message
                else "No se pudieron guardar los datos en la base de datos.";
              destructive := true |})
  | (None, t2) =>
      (t2, {| title := "Datos guardados";
              description :=
                pretty (length rows)
                +:+ " invitados guardados en la base de datos.";
              destructive := false |})
  end.

(** *** The upload: [handleFileUpload], [processCSVFile], [processExcelFile] *)

(** [String.prototype.endsWith]: some tail of [s] is [suffix]. *)
Fixpoint endsWith (s suffix : string) : bool :=
  bool_decide (s = suffix)
  || match s with
     | EmptyString => false
     | String _ rest => endsWith rest suffix
     end.

(** [Array.prototype.join] *)
Fixpoint join (sep : string) (l : list string) : string :=
  match l with
  | [] => ""
  | [x] => x
  | x :: l' => x +:+ sep +:+ join sep l'
  end.

(** [String(value)] *)
Definition JsString (value : JsValue) : string :=
  match value with
  | JUndefined => "undefined"
  | JNull => "null"
  | JBool b => if b then "true" else "false"
  | JNum n => pretty n
  | JStr s => s
  end.

(** The component state of the uploader. *)
Record UploaderState := {
  isOpen : bool;
  isLoading : bool;
  error : option string;
  fileName : string
}.

Definition setError (e : option string) (st : UploaderState) : UploaderState :=
  {| isOpen := isOpen st; isLoading := isLoading st; error := e;
     fileName := fileName st |}.

Definition setIsLoading (b : bool) (st : UploaderState) : UploaderState :=
  {| isOpen := isOpen st; isLoading := b; error := error st;
     fileName := fileName st |}.

Definition setIsOpen (b : bool) (st : UploaderState) : UploaderState :=
  {| isOpen := b; isLoading := isLoading st; error := error st;
     fileName := fileName st |}.

Definition setFileName (n : string) (st : UploaderState) : UploaderState :=
  {| isOpen := isOpen st; isLoading := isLoading st; error := error st;
     fileName := n |}.

(** What the parser hands to [complete]: the messages of [results.errors],
    [results.data] and [results.meta.fields]. *)
Record ParseResults := {
  errors : list string;
  data : list Row;
  fields : option (list string)
}.

(** How the parse of a CSV file ends: [complete] or [error]. *)
Inductive PapaOutcome :=
| PapaComplete (results : ParseResults)
| PapaError (message : string).

(** How the read of an Excel file ends: [reader.onerror]; an exception
    inside [reader.onload], as the text [`${error}`]; or a workbook, given
    by what [sheet_to_json] returns for its first sheet ([None] when
    [SheetNames[0]] is missing). *)
Inductive ExcelOutcome :=
| ReaderFailed
| ReadThrows (thrown : string)
| Workbook (firstSheet : option (list (list JsValue))).

(** A chosen file: name, size in bytes, and what parsing it yields. *)
Record File := {
  name : string;
  size : Z;
  papa : PapaOutcome;
  excel : ExcelOutcome
}.

(** What an upload leaves behind: the state of the uploader, the table,
    the toast shown and the arguments of [onDataLoad] when it is called. *)
Record Outcome := {
  uploader : UploaderState;
  guests : Supabase.Table;
  shown : option Toast;
  onDataLoad : option (list Row * list string)
}.

(** [setError(message); setIsLoading(false); return] *)
Definition stop (message : string) (t : Supabase.Table) (st : UploaderState)
    : Outcome :=
  {| uploader := setIsLoading false (setError (Some message) st);
     guests := t; shown := None; onDataLoad := None |}.

(** [value !== null && value !== undefined && value !== ''] *)
Definition hasValue (value : JsValue) : bool :=
  match value with
  | JUndefined | JNull => false
  | JStr s => Js.truthy s
  | JBool _ | JNum _ => true
  end.

(** [validData]: the rows with some value. *)
Definition validData (rows : list Row) : list Row :=
  List.filter (λ row, existsb hasValue (Obj.values row)) rows.

(** The [complete] and [error] callbacks of [processCSVFile]. *)
Definition processCSVFile (svc : Service) (parsed : PapaOutcome)
    (t : Supabase.Table) (st : UploaderState) : Outcome :=
  match parsed with
  | PapaError message =>
      stop ("Error al leer el archivo: " +:+ message) t st
  | PapaComplete results =>
      if bool_decide (0 < length (errors results))
      then stop ("Error al procesar CSV: " +:+ join ", " (errors results)) t st
      else if bool_decide (length (data results) = 0)
      then stop "El archivo CSV está vacío o no contiene datos válidos" t st
      else
        let headers := default [] (fields results) in
        if bool_decide (length headers = 0)
        then stop "No se pudieron detectar las columnas del CSV" t st
        else
          let rows := validData (data results) in
          if bool_decide (length rows = 0)
          then stop "No se encontraron filas de datos válidas" t st
          else
            let saved := saveGuestsToSupabase svc rows headers t in
            {| uploader :=
                 setIsOpen false (setError None (setIsLoading false st));
               guests := saved.1;
               shown := Some saved.2;
               onDataLoad := Some (rows, headers) |}
  end.

(** [jsonData[0].map((h) => String(h).trim()).filter(Boolean)] *)
Definition excelHeaders (firstRow : list JsValue) : list string :=
  List.filter Js.truthy ((λ h, Js.trim (JsString h)) <$> firstRow).

(** [row.some(cell => cell && String(cell).trim())] *)
Definition nonEmptyRow (row : list JsValue) : bool :=
  existsb (λ cell, Obj.truthy cell && Js.truthy (Js.trim (JsString cell))) row.

(** [row[index] || ''] *)
Definition cellOr (row : list JsValue) (index : nat) : JsValue :=
  match row !! index with
  | Some cell => if Obj.truthy cell then cell else JStr ""
  | None => JStr ""
  end.

(** [headers.forEach((header, index) => { obj[header] = row[index] || '' })],
    from position [index] on. *)
Fixpoint fillObject (row : list JsValue) (index : nat) (headers : list string)
    (obj : Row) : Row :=
  match headers with
  | [] => obj
  | header :: rest =>
      fillObject row (S index) rest (<[header := cellOr row index]> obj)
  end.

(** [dataRows] *)
Definition excelRows (headers : list string) (jsonData : list (list JsValue))
    : list Row :=
  (λ row, fillObject row 0 headers ∅)
    <$> List.filter nonEmptyRow (drop 1 jsonData).

(** [reader.onload] and [reader.onerror] of [processExcelFile]. *)
Definition processExcelFile (svc : Service) (read : ExcelOutcome)
    (t : Supabase.Table) (st : UploaderState) : Outcome :=
  match read with
  | ReaderFailed => stop "Error al leer el archivo Excel" t st
  | ReadThrows thrown =>
      stop ("Error al procesar archivo Excel: " +:+ thrown) t st
  | Workbook None =>
      stop "El archivo Excel no contiene hojas de trabajo" t st
  | Workbook (Some jsonData) =>
      if bool_decide (length jsonData < 2)
      then stop ("El archivo debe contener al menos una fila de encabezados"
                 +:+ " y una fila de datos") t st
      else
        let headers := excelHeaders (default [] (head jsonData)) in
        if bool_decide (length headers = 0)
        then stop "No se pudieron detectar las columnas del archivo" t st
        else
          let rows := excelRows headers jsonData in
          if bool_decide (length rows = 0)
          then stop "No se encontraron filas de datos válidas" t st
          else
            let saved := saveGuestsToSupabase svc rows headers t in
            {| uploader :=
                 setIsOpen false (setIsLoading false (setError None st));
               guests := saved.1;
               shown := Some saved.2;
               onDataLoad := Some (rows, headers) |}
  end.

Definition maxSize : Z := 10 * 1024 * 1024.

(** [handleFileUpload]; [None] is an event without a file. *)
Definition handleFileUpload (svc : Service) (file : option File)
    (t : Supabase.Table) (st : UploaderState) : Outcome :=
  match file with
  | None =>
      {| uploader := st; guests := t; shown := None; onDataLoad := None |}
  | Some f =>
      let st1 := setError None (setIsLoading true (setFileName (name f) st)) in
      let fileExtension := Js.toLowerCase (name f) in
      if negb (endsWith fileExtension ".csv")
         && negb (endsWith fileExtension ".xlsx")
         && negb (endsWith fileExtension ".xls")
      then stop "Solo se permiten archivos CSV, XLS y XLSX" t st1
      else if bool_decide (maxSize < size f)%Z
      then stop "El archivo es demasiado grande. Máximo 10MB" t st1
      else if endsWith fileExtension ".csv"
      then processCSVFile svc (papa f) t st1
      else if endsWith fileExtension ".xlsx" || endsWith fileExtension ".xls"
      then processExcelFile svc (excel f) t st1
      else
        {| uploader := st1; guests := t; shown := None; onDataLoad := None |}
  end.


End CSVUploader.

(** ** GuestTable.tsx: state, loading, search, confirmation *)

(** The code of this part reads the same in both versions of the table. *)
Module GuestTable.

(** The component state ([useState]). *)
Record State := {
  supabaseGuests : list Guest.t;
  confirmedGuests : gset string
}.

Definition initial : State :=
  {| supabaseGuests := []; confirmedGuests := ∅ |}.

(** [new Set(guests.filter(g => g.confirmed).map(g => g.guest_id))] *)
Definition confirmedSet (guests : list Guest.t) : gset string :=
  list_to_set (Guest.guest_id <$> filter (λ g, Guest.confirmed g = true) guests).

(** [loadGuestsFromSupabase] *)
Definition loadGuestsFromSupabase (fault : Supabase.Fault)
    (t : Supabase.Table) (st : State) : State * option Toast :=
  match Supabase.selectOrderByCreatedAt fault t with
  | (Some _, _) =>
      (st, Some {| title := "Error al cargar datos";
                   description :=
                     "No se pudieron cargar los invitados desde la base de datos.";
                   destructive := true |})
  | (None, guests) =>
      ({| supabaseGuests := guests; confirmedGuests := confirmedSet guests |},
       None)
  end.

(** [{...g.guest_data, _supabase_id: g.id, _guest_id: g.guest_id}] *)
Definition displayRow (g : Guest.t) : Row :=
  <["_guest_id" := JStr (Guest.guest_id g)]>
    (<["_supabase_id" := JStr (Guest.id g)]> (Guest.guest_data g)).

(** [currentData]; [data] is the prop with the rows parsed locally. *)
Definition currentData (st : State) (data : list Row) : list Row :=
  if bool_decide (0 < length (supabaseGuests st))
  then displayRow <$> supabaseGuests st
  else data.

(** [value?.toString().toLowerCase().includes(searchTerm.toLowerCase())] *)
Definition valueMatches (searchTerm : string) (value : JsValue) : bool :=
  match Obj.toString value with
  | Some s => Js.includes (Js.toLowerCase s) (Js.toLowerCase searchTerm)
  | None => false
  end.

Definition rowMatches (searchTerm : string) (row : Row) : bool :=
  existsb (valueMatches searchTerm) (Obj.values row).

(** [filteredData] *)
Definition filteredData (st : State) (data : list Row) (searchTerm : string)
    : list Row :=
  if negb (Js.truthy (Js.trim searchTerm)) then currentData st data
  else List.filter (rowMatches searchTerm) (currentData st data).

(** [handleConfirmGuest]; [date] is [new Date()], [now] the clock of the
    service. The table, the state and the toast afterwards. The handler
    reads [confirmedGuests] of the render that created it, and the updater
    passed to [setConfirmedGuests] the set at the time it runs; here one
    handler runs at a time, from a state that has been rendered, so both
    are the set of [st]. *)
Definition handleConfirmGuest (fault : Supabase.Fault) (now date : Timestamp)
    (guestId : string) (t : Supabase.Table) (st : State)
    : Supabase.Table * State * Toast :=
  let isCurrentlyConfirmed := bool_decide (guestId ∈ confirmedGuests st) in
  match
    Supabase.updateWhereGuestIdEq fault now guestId
      (negb isCurrentlyConfirmed)
      (if negb isCurrentlyConfirmed then Some date else None) t
  with
  | (Some _, t') =>
      (t', st,
       {| title := "Error al actualizar";
          description := "No se pudo actualizar el estado del invitado.";
          destructive := true |})
  | (None, t') =>
      (t',
       {| supabaseGuests := supabaseGuests st;
          confirmedGuests :=
            if bool_decide (guestId ∈ confirmedGuests st)
            then confirmedGuests st ∖ {[guestId]}
            else confirmedGuests st ∪ {[guestId]} |},
       {| title :=
            if isCurrentlyConfirmed then "Confirmación cancelada"
            else "Invitado confirmado";
          description :=
            "El invitado " +:+ guestId +:+ " ha sido "
            +:+ (if isCurrentlyConfirmed then "des" else "")
            +:+ "confirmado.";
          destructive := false |})
  end.

Definition possibleIdFields : list string :=
  ["id"; "ID"; "Id"; "código"; "codigo"; "Código"; "Codigo"].

(** [row[field] !== undefined && row[field] !== null && row[field] !== ""] *)
Definition present (value : JsValue) : bool :=
  match value with
  | JUndefined | JNull => false
  | JStr s => Js.truthy s
  | JBool _ | JNum _ => true
  end.

(** [getGuestId]. The first branch returns the field [_guest_id] as it is;
    the others return strings. *)
Definition getGuestId (row : Row) (index : nat) : JsValue :=
  if Obj.truthy (Obj.get row "_guest_id") then Obj.get row "_guest_id"
  else
    match find (λ field, present (Obj.get row field)) possibleIdFields with
    | Some field =>
        JStr (default "" (Obj.toString (Obj.get row field)))
    | None => JStr ("guest_" +:+ pretty index)
    end.

(** The identifiers of the rows on screen:
    [filteredData.map((row, index) => getGuestId(row, index))]. *)
Definition shownIds (st : State) (data : list Row) (searchTerm : string)
    : list JsValue :=
  imap (λ index row, getGuestId row index) (filteredData st data searchTerm).

(** [confirmedGuests.has(id)], for an identifier as [getGuestId] returns
    it; the set holds strings only. *)
Definition has (confirmed : gset string) (id : JsValue) : bool :=
  match id with
  | JStr s => bool_decide (s ∈ confirmed)
  | _ => false
  end.

End GuestTable.

(** What the grid version renders below the search bar. *)
Inductive View :=
| NoGuestsLoaded
| GuestNotFound (searchTerm : string)
| GuestRows (rows : list Row).

(** The grid version: [currentData.length === 0] returns the card
    "No hay invitados cargados"; [filteredData.length === 0 && searchTerm]
    shows "Invitado no encontrado"; otherwise the table. *)
Definition GridTable_render (st : GuestTable.State) (data : list Row)
    (searchTerm : string) : View :=
  if bool_decide (length (GuestTable.currentData st data) = 0)
  then NoGuestsLoaded
  else if bool_decide (length (GuestTable.filteredData st data searchTerm) = 0)
          && Js.truthy searchTerm
  then GuestNotFound searchTerm
  else GuestRows (GuestTable.filteredData st data searchTerm).

(** The badges of the grid version: Total, Filtrados, Confirmados. *)
Definition GridTable_badges (st : GuestTable.State) (data : list Row)
    (searchTerm : string) : nat * nat * nat :=
  (length (GuestTable.currentData st data),
   length (GuestTable.filteredData st data searchTerm),
   size (GuestTable.confirmedGuests st)).

(** The button of the accordion version, "Sin confirmar":
    [filteredData.filter(row => !confirmedGuests.has(getGuestId(row, 0))).length]. *)
Definition AccordionTable_sinConfirmar (st : GuestTable.State)
    (data : list Row) (searchTerm : string) : nat :=
  length
    (List.filter
       (λ row, negb (GuestTable.has (GuestTable.confirmedGuests st)
                       (GuestTable.getGuestId row 0)))
       (GuestTable.filteredData st data searchTerm)).

(** ** Index.tsx *)

Module Index.

(** The state of the page. [motoIndex] belongs to the version of the page
    with the animated header. *)
Record State := {
  guestData : list Row;
  headers : list string;
  searchTerm : string;
  motoIndex : nat
}.

Definition initial : State :=
  {| guestData := []; headers := []; searchTerm := ""; motoIndex := 0 |}.

Definition motoColors : list (string * string) :=
  [ ("Verde", "hue-rotate(90deg) brightness(1.1)");
    ("Azul", "hue-rotate(200deg) brightness(1.1)");
    ("Amarilla", "hue-rotate(60deg) brightness(1.2) saturate(1.5)");
    ("Roja", "none") ].

(** The callback of the interval:
    [setMotoIndex((prev) => (prev + 1) % motoColors.length)]. *)
Definition tick (st : State) : State :=
  {| guestData := guestData st; headers := headers st;
     searchTerm := searchTerm st;
     motoIndex := (motoIndex st + 1) mod length motoColors |}.

(** [handleDataLoad] *)
Definition handleDataLoad (data : list Row) (csvHeaders : list string)
    (st : State) : State :=
  {| guestData := data; headers := csvHeaders; searchTerm := "";
     motoIndex := motoIndex st |}.

(** [<CSVUploader onDataLoad={handleDataLoad} />]: the page after an
    upload. *)
Definition afterUpload (o : CSVUploader.Outcome) (st : State) : State :=
  match CSVUploader.onDataLoad o with
  | Some (data, csvHeaders) => handleDataLoad data csvHeaders st
  | None => st
  end.

(** [<GuestTable data={guestData} ... searchTerm={searchTerm} />]: the rows
    the table shows for the page. *)
Definition tableRows (st : State) (table : GuestTable.State) : list Row :=
  GuestTable.filteredData table (guestData st) (searchTerm st).

End Index.

(** ** Sample rows *)

Definition ana : Row := list_to_map [("Nombre", JStr "Ana")].

Definition anaA1 : Row :=
  list_to_map [("Código", JStr "A1"); ("Nombre", JStr "Ana")].

(** ** Notions used in the statements *)

(** What the three passes keep true of [orderedHeaders]. *)
Definition placedFrom (headers orderedHeaders : list string) : Prop :=
  NoDup orderedHeaders ∧ orderedHeaders ⊆ headers.

(** A result that holds every header of [headers] once. *)
Definition EachOnce (headers out : list string) : Prop :=
  NoDup out
  ∧ (∀ h, h ∈ out ↔ h ∈ headers)
  ∧ (NoDup headers → out ≡ₚ headers).

(** The identifiers of an upload, row by row. *)
Definition uploadIds (data : list Row) (headers : list string) : list string :=
  imap (λ index row, CSVUploader.guestIdOf headers row index) data.

(** The unique index [idx_guests_guest_id] holds of a table. *)
Definition UniqueIds (t : Supabase.Table) : Prop :=
  NoDup (Guest.guest_id <$> t).

(** A record has a date of confirmation exactly when it is confirmed. *)
Definition Stamped (r : Guest.t) : Prop :=
  Guest.confirmed r = true ↔ is_Some (Guest.confirmed_at r).

(** [h] is the header that pass 1 of [getOrderedHeaders] takes for the
    preferred name [d]: the first header equal to [d] up to case and
    surrounding white space, not empty. *)
Definition ExactFor (headers : list string) (d h : string) : Prop :=
  find (λ x, bool_decide (Js.toLowerCase (Js.trim x)
                          = Js.toLowerCase (Js.trim d))) headers = Some h
  ∧ h ≠ "".

(** [h] is placed by pass 1 or pass 2 for some preferred name. *)
Definition Preferred (partial : string → string → bool)
    (desired headers : list string) (h : string) : Prop :=
  h ∈ headers
  ∧ ∃ d, d ∈ desired ∧ (ExactFor headers d h ∨ partial d h = true).

(** No element of [ws] is at the head of [s]. *)
Definition headClean (ws : list string) (s : string) : Prop :=
  ∀ w, w ∈ ws → Js.stripPrefix w s = None.

(** The characters of which numbers and dates are written: the digits and
    [+ - . : E T Z e]. *)
Definition numberOrDateChar (c : Ascii.ascii) : bool :=
  CSVUploader.isDigit c
  || bool_decide (Js.code c ∈ [43; 45; 46; 58; 69; 84; 90; 101]).

(** A text of such characters only; a text of digits only; a text with a
    digit; a class of such characters. *)
Abbreviation Typing := (Forall (λ c, numberOrDateChar c = true)).

Abbreviation Digits := (Forall (λ c, CSVUploader.isDigit c = true)).

Abbreviation HasDigit l := (∃ c, c ∈ l ∧ CSVUploader.isDigit c = true).

Abbreviation TypingClass :=
  (λ cl : Ascii.ascii → bool, ∀ c, cl c = true → numberOrDateChar c = true).

(** The character of the dot of an extension. *)
Abbreviation dot :=
  (Ascii.Ascii false true true true false true false false).

(** ** Checks on small inputs *)

Example lower_codigo : Js.toLowerCase "CÓDIGO Ñ" = "código ñ".
Proof. vm_compute. reflexivity. Qed.

Example trim_nombre : Js.trim "   Nombre  " = "Nombre".
Proof. vm_compute. reflexivity. Qed.

Example grid_order :
  GridTable.getOrderedHeaders ["Provincia"; "nombre "; "Email"; "dni"; "Show"]
  = ["dni"; "nombre "; "Provincia"; "Show"; "Email"].
Proof. vm_compute. reflexivity. Qed.

Example guestIdOf_codigo :
  CSVUploader.guestIdOf ["Código"; "Nombre"] anaA1 0 = "A1".
Proof. vm_compute. reflexivity. Qed.

Example guestIdOf_nombre : CSVUploader.guestIdOf ["Nombre"] ana 0 = "guest_1".
Proof. vm_compute. reflexivity. Qed.

Example getGuestId_nombre : GuestTable.getGuestId ana 0 = JStr "guest_0".
Proof. vm_compute. reflexivity. Qed.

Example search_ana :
  GuestTable.filteredData GuestTable.initial [ana; anaA1] "a1" = [anaA1].
Proof. vm_compute. reflexivity. Qed.

(** ** The column order places every header once *)

Section Placement.

Variable headers : list string.

Lemma pushUnlessIncluded_elem cond acc h x :
  x ∈ pushUnlessIncluded cond acc h ↔
  x ∈ acc ∨ (x = h ∧ (h ∉ acc) ∧ cond = true).
Proof.
  unfold pushUnlessIncluded, Js.arrayIncludes.
  case_bool_decide as Hin; destruct cond; simpl;
    rewrite ?elem_of_app, ?list_elem_of_singleton; intuition congruence.
Qed.

Lemma pushUnlessIncluded_placed cond acc h :
  h ∈ headers → placedFrom headers acc → placedFrom headers (pushUnlessIncluded cond acc h).
Proof.
  intros Hh [Hnd Hsub]. split.
  - unfold pushUnlessIncluded, Js.arrayIncludes.
    case_bool_decide as Hin; destruct cond; simpl; try done.
    apply NoDup_app. split_and!; [done | | apply NoDup_singleton].
    intros x Hx ->%list_elem_of_singleton. done.
  - intros x [Hx | (-> & _ & _)]%pushUnlessIncluded_elem; auto.
Qed.

Lemma fold_placed {A} (f : list string → A → list string) (l : list A) :
  (∀ acc a, a ∈ l → placedFrom headers acc → placedFrom headers (f acc a)) →
  ∀ acc, placedFrom headers acc → placedFrom headers (fold_left f l acc).
Proof.
  induction l as [| a l IH]; intros Hf acc Hacc; simpl; [done |].
  apply IH.
  - intros acc' a' Ha'. apply Hf. by right.
  - apply Hf; [by left | done].
Qed.

Lemma exactPass_placed desired acc :
  placedFrom headers acc → placedFrom headers (exactPass desired headers acc).
Proof.
  apply fold_placed. intros acc' d _ Hacc'.
  destruct (find _ headers) as [exact |] eqn:Hfind; [| done].
  apply find_some in Hfind as [Hin _].
  apply pushUnlessIncluded_placed; [by apply list_elem_of_In | done].
Qed.

Lemma partialPass_placed partial desired acc :
  placedFrom headers acc → placedFrom headers (partialPass partial desired headers acc).
Proof.
  apply fold_placed. intros acc' d _.
  apply fold_placed. intros acc'' h Hh. by apply pushUnlessIncluded_placed.
Qed.

Lemma restPass_placed acc :
  placedFrom headers acc → placedFrom headers (restPass headers acc).
Proof.
  apply fold_placed. intros acc' h Hh. by apply pushUnlessIncluded_placed.
Qed.

End Placement.

Lemma restPass_keeps l acc x : x ∈ acc → x ∈ restPass l acc.
Proof.
  revert acc. induction l as [| h l IH]; intros acc Hx; simpl; [done |].
  apply IH, pushUnlessIncluded_elem. by left.
Qed.

Lemma restPass_covers l acc x : x ∈ l → x ∈ restPass l acc.
Proof.
  revert acc. induction l as [| h l IH]; intros acc Hx.
  - by apply elem_of_nil in Hx.
  - apply elem_of_cons in Hx as [-> | Hx]; simpl; [| by apply IH].
    apply restPass_keeps, pushUnlessIncluded_elem.
    destruct (decide (h ∈ acc)); [by left | by right].
Qed.

Lemma rest_of_placed_EachOnce headers acc :
  placedFrom headers acc → EachOnce headers (restPass headers acc).
Proof.
  intros Hacc. apply restPass_placed in Hacc as [Hnd Hsub].
  assert (∀ h, h ∈ restPass headers acc ↔ h ∈ headers) as Hiff.
  { intros h. split; [apply Hsub | apply restPass_covers]. }
  split_and!; [done | done |].
  intros Hnd'. by apply NoDup_Permutation.
Qed.

Lemma placedFrom_nil headers : placedFrom headers [].
Proof. split; [apply NoDup_nil_2 | apply list_subseteq_nil]. Qed.

(** C1, as the claim states it, fails for a list that names a header
    twice (two columns of a sheet with the same title): the name is placed
    once, so the result is shorter than the input and no permutation of
    it. *)
Lemma repeated_header_is_placed_once :
  GridTable.getOrderedHeaders ["Nombre"; "Nombre"] = ["Nombre"]
  ∧ AccordionTable.getOrderedHeaders ["Nombre"; "Nombre"] = ["Nombre"]
  ∧ ¬ (GridTable.getOrderedHeaders ["Nombre"; "Nombre"]
       ≡ₚ ["Nombre"; "Nombre"])
  ∧ ¬ (AccordionTable.getOrderedHeaders ["Nombre"; "Nombre"]
       ≡ₚ ["Nombre"; "Nombre"]).
Proof.
  assert (GridTable.getOrderedHeaders ["Nombre"; "Nombre"] = ["Nombre"])
    as Hg by (by vm_compute).
  assert (AccordionTable.getOrderedHeaders ["Nombre"; "Nombre"] = ["Nombre"])
    as Ha by (by vm_compute).
  rewrite Hg, Ha. split_and!; [done | done | |];
    intros Hp%Permutation_length; discriminate.
Qed.

(** C1, amended. For every list of headers and every preferred order,
    both versions of [getOrderedHeaders] return a list without repetition that holds
    exactly the headers of the input: none is dropped, none is duplicated,
    and for an input of distinct headers the result is a permutation of it.
    Both are functions of the preferred order and the headers alone. *)
Theorem getOrderedHeaders_each_header_once (desired headers : list string) :
  EachOnce headers (GridTable.getOrderedHeadersFor desired headers)
  ∧ EachOnce headers (AccordionTable.getOrderedHeadersFor desired headers)
  ∧ EachOnce headers (GridTable.getOrderedHeaders headers)
  ∧ EachOnce headers (AccordionTable.getOrderedHeaders headers).
Proof.
  unfold GridTable.getOrderedHeaders, AccordionTable.getOrderedHeaders,
    GridTable.getOrderedHeadersFor, AccordionTable.getOrderedHeadersFor.
  split_and!; apply rest_of_placed_EachOnce, partialPass_placed,
    exactPass_placed, placedFrom_nil.
Qed.

Lemma getOrderedHeaders_each_header_once_witness :
  EachOnce ["Provincia"; "nombre "; "Email"; "dni"]
    (GridTable.getOrderedHeaders ["Provincia"; "nombre "; "Email"; "dni"])
  ∧ EachOnce ["Provincia"; "nombre "; "Email"; "dni"]
      (AccordionTable.getOrderedHeaders ["Provincia"; "nombre "; "Email"; "dni"]).
Proof.
  destruct (getOrderedHeaders_each_header_once desiredOrder
              ["Provincia"; "nombre "; "Email"; "dni"]) as (_ & _ & Hg & Ha).
  exact (conj Hg Ha).
Defined.

(** ** The partial pass of the two versions *)

(** C5. On the headers "Ape" and "Nombre completo" the two versions of
    [getOrderedHeaders] give different orders. "Ape" is contained in the
    preferred name "Apellido": the grid version places it in the partial
    pass, before "Nombre completo"; the accordion version, whose second
    test is membership of the header in the array [desiredOrder], does not,
    and appends it last. *)
Theorem getOrderedHeaders_versions_disagree :
  GridTable.partialMatch "Apellido" "Ape" = true
  ∧ AccordionTable.partialMatch desiredOrder "Apellido" "Ape" = false
  ∧ GridTable.getOrderedHeaders ["Ape"; "Nombre completo"]
    = ["Ape"; "Nombre completo"]
  ∧ AccordionTable.getOrderedHeaders ["Ape"; "Nombre completo"]
    = ["Nombre completo"; "Ape"].
Proof. vm_compute. done. Qed.

(** ** Facts about the string functions *)

Lemma startsWith_app s p :
  Js.startsWith s p = true ↔ ∃ post, s = p +:+ post.
Proof.
  revert s. induction p as [| a p IH]; intros s.
  - split; [by exists s | by destruct s].
  - destruct s as [| b s]; simpl.
    + split; [done | by intros [post ?]].
    + rewrite andb_true_iff, Ascii.eqb_eq, IH. split.
      * by intros [-> [post ->]]; exists post.
      * intros [post [= -> ->]]. eauto.
Qed.

(** [includes] is containment: the text occurs somewhere in the string. *)
Lemma includes_app s sub :
  Js.includes s sub = true ↔ ∃ pre post, s = pre +:+ sub +:+ post.
Proof.
  induction s as [| c s IH]; cbn [Js.includes];
    rewrite orb_true_iff, startsWith_app.
  - split.
    + intros [[post ->] | ?]; [by exists "", post | done].
    + intros (pre & post & H). left. destruct pre; [by exists post |].
      by simplify_eq.
  - rewrite IH. split.
    + intros [[post ->] | (pre & post & ->)]; [by exists "", post |].
      by exists (String c pre), post.
    + intros (pre & post & H). destruct pre as [| c' pre].
      * left. by exists post.
      * right. change (String c s = String c' (pre +:+ sub +:+ post)) in H.
        injection H as _ ->. by exists pre, post.
Qed.

Lemma includes_empty s : Js.includes s "" = true.
Proof. apply includes_app. by exists "", s. Qed.

Lemma shift32_not_capital c :
  Js.between 65 90 c = true → Js.between 65 90 (Js.shift32 c) = false.
Proof.
  destruct c as [[] [] [] [] [] [] [] []]; vm_compute; congruence.
Qed.

(** A lower-cased string does not start with a letter A-Z. *)
Lemma toLowerCase_head s c r :
  Js.toLowerCase s = String c r → Js.between 65 90 c = false.
Proof.
  destruct s as [| a s]; simpl; [done |].
  destruct (Js.between 65 90 a) eqn:Ha.
  { intros [= <- _]. by apply shift32_not_capital. }
  destruct (Js.code a =? 195)%nat.
  - destruct s as [| d s]; [by intros [= <- _] |].
    destruct (_ && _); by intros [= <- _].
  - by intros [= <- _].
Qed.

(** Every preferred name starts with a capital letter, so the accordion
    version never finds a lower-cased header in [desiredOrder]: its partial
    pass tests only whether the header contains the preferred name. *)
Lemma accordion_partialMatch_forward_only desiredHeader h :
  AccordionTable.partialMatch desiredOrder desiredHeader h
  = Js.includes (Js.toLowerCase h) (Js.toLowerCase desiredHeader).
Proof.
  unfold AccordionTable.partialMatch, Js.arrayIncludes.
  case_bool_decide as Hin; [| apply orb_false_r].
  exfalso. unfold desiredOrder in Hin.
  repeat (apply elem_of_cons in Hin as [Heq | Hin];
          [apply toLowerCase_head in Heq; by vm_compute in Heq |]).
  by apply elem_of_nil in Hin.
Qed.

(** ** The guest identifier *)

Lemma find_none_Forall {A} (f : A → bool) (l : list A) :
  Forall (λ x, f x = false) l → find f l = None.
Proof. induction 1 as [| x l Hx _ IH]; simpl; [done | by rewrite Hx]. Qed.

Lemma find_first {A} (f : A → bool) (pre : list A) (x : A) (post : list A) :
  Forall (λ y, f y = false) pre → f x = true →
  find f (pre ++ x :: post) = Some x.
Proof.
  induction 1 as [| y pre Hy _ IH]; simpl; intros Hx.
  - by rewrite Hx.
  - rewrite Hy. by apply IH.
Qed.

Lemma isIdHeader_truthy header :
  CSVUploader.isIdHeader header = true → Js.truthy header = true.
Proof. by destruct header. Qed.

Lemma guestN_truthy index : Js.truthy (CSVUploader.guestN index) = true.
Proof. done. Qed.

(** An identifier computed by the uploader is never the empty string. *)
Lemma guestIdOf_truthy headers row index :
  Js.truthy (CSVUploader.guestIdOf headers row index) = true.
Proof.
  unfold CSVUploader.guestIdOf.
  destruct (find _ headers) as [f |]; [| done].
  destruct (Js.truthy f); [| done].
  destruct (Obj.toString _) as [s |]; [| done].
  by destruct (Js.truthy s) eqn:Hs.
Qed.

Lemma getGuestId_displayRow g index :
  Js.truthy (Guest.guest_id g) = true →
  GuestTable.getGuestId (GuestTable.displayRow g) index
  = JStr (Guest.guest_id g).
Proof.
  intros Hg. unfold GuestTable.getGuestId, GuestTable.displayRow, Obj.get.
  rewrite lookup_insert_eq. simpl. by rewrite Hg.
Qed.

(** C3, as the claim states it, fails on the display path. With the header
    Nombre only, the uploader stores the first row as guest_1 and the
    second as guest_2, while [getGuestId] names the first row on screen
    guest_0, and names the second row guest_0 as well once a search leaves
    it alone on screen. *)
Lemma display_identifier_is_not_the_stored_one :
  let bea : Row := list_to_map [("Nombre", JStr "Bea")] in
  CSVUploader.guestIdOf ["Nombre"] ana 0 = "guest_1"
  ∧ CSVUploader.guestIdOf ["Nombre"] bea 1 = "guest_2"
  ∧ GuestTable.shownIds GuestTable.initial [ana; bea] ""
    = [JStr "guest_0"; JStr "guest_1"]
  ∧ GuestTable.shownIds GuestTable.initial [ana; bea] "bea"
    = [JStr "guest_0"]
  ∧ GuestTable.getGuestId ana 0
    ≠ JStr (CSVUploader.guestIdOf ["Nombre"] ana 0).
Proof. vm_compute. split_and!; congruence. Qed.

(** C3, amended. For the row at position [index] (from 0) of the parsed
    rows the uploader stores: guest_{index+1} when no header contains id,
    código or codigo in any case; otherwise, with [f] the first such
    header, the string of the cell under [f] when that string exists and is
    not empty, and guest_{index+1} when the cell is missing, null or empty.
    So ["Nombre"] alone gives guest_1 for the first row and
    ["Código"; "Nombre"] gives the cell A1. On screen, a row loaded from
    the store carries the stored identifier, whatever its position; a row
    not loaded from the store is named by its own look-up, the first cell
    that is present among the fields id, ID, Id, código, codigo, Código,
    Codigo. *)
Theorem guest_identifier_rule (headers : list string) (row : Row)
    (index : nat) :
  (Forall (λ h, CSVUploader.isIdHeader h = false) headers →
   CSVUploader.guestIdOf headers row index = "guest_" +:+ pretty (index + 1))
  ∧ (∀ pre f post,
       headers = pre ++ f :: post →
       Forall (λ h, CSVUploader.isIdHeader h = false) pre →
       CSVUploader.isIdHeader f = true →
       CSVUploader.guestIdOf headers row index
       = match Obj.toString (Obj.get row f) with
         | Some s => if bool_decide (s = "")
                     then "guest_" +:+ pretty (index + 1) else s
         | None => "guest_" +:+ pretty (index + 1)
         end)
  ∧ CSVUploader.guestIdOf ["Nombre"] ana 0 = "guest_1"
  ∧ CSVUploader.guestIdOf ["Código"; "Nombre"] anaA1 0 = "A1"
  ∧ (∀ g shown,
       Guest.guest_id g = CSVUploader.guestIdOf headers row index →
       GuestTable.getGuestId (GuestTable.displayRow g) shown
       = JStr (CSVUploader.guestIdOf headers row index))
  ∧ (∀ pre f post shown,
       Obj.truthy (Obj.get row "_guest_id") = false →
       GuestTable.possibleIdFields = pre ++ f :: post →
       Forall (λ x, GuestTable.present (Obj.get row x) = false) pre →
       GuestTable.present (Obj.get row f) = true →
       ∃ s, Obj.toString (Obj.get row f) = Some s
            ∧ GuestTable.getGuestId row shown = JStr s).
Proof.
  split_and!.
  - intros Hno. unfold CSVUploader.guestIdOf.
    by rewrite (find_none_Forall _ _ Hno).
  - intros pre f post -> Hpre Hf. unfold CSVUploader.guestIdOf.
    rewrite (find_first _ _ _ _ Hpre Hf), (isIdHeader_truthy _ Hf).
    destruct (Obj.toString _) as [s |]; [| done].
    unfold Js.truthy. case_bool_decide as Hs.
    + by rewrite Hs.
    + by apply String.eqb_neq in Hs as ->.
  - by vm_compute.
  - by vm_compute.
  - intros g shown Hg. rewrite <- Hg. apply getGuestId_displayRow.
    rewrite Hg. apply guestIdOf_truthy.
  - intros pre f post shown Hno Hfields Hpre Hf.
    unfold GuestTable.getGuestId. rewrite Hno, Hfields.
    rewrite (find_first _ _ _ _ Hpre Hf).
    destruct (Obj.get row f) as [| | b | n | s]; simpl in *;
      try done; eauto.
Qed.

Lemma guest_identifier_rule_witness :
  CSVUploader.guestIdOf ["Nombre"; "Ciudad"] ana 4 = "guest_5"
  ∧ CSVUploader.guestIdOf ["Nombre"; "Código"] anaA1 4 = "A1".
Proof.
  split.
  - apply (guest_identifier_rule ["Nombre"; "Ciudad"] ana 4).
    by repeat constructor.
  - destruct (guest_identifier_rule ["Nombre"; "Código"] anaA1 4)
      as (_ & H & _).
    apply (H ["Nombre"] "Código" []); [done | by repeat constructor | done].
Defined.

(** ** Replacing the guests of the table *)

Lemma deleteWhereIdNeq_all v (t : Supabase.Table) :
  Forall (λ r, Guest.id r ≠ v) t →
  Supabase.deleteWhereIdNeq None v t = (None, []).
Proof.
  intros Hall. unfold Supabase.deleteWhereIdNeq. f_equal.
  induction Hall as [| r t Hr _ IH]; [done |].
  rewrite filter_cons. by case_decide.
Qed.

Lemma inserted_guest_ids uuid now data headers :
  Guest.guest_id
    <$> imap (Supabase.withDefaults uuid now)
          (CSVUploader.guestsToInsert data headers)
  = uploadIds data headers.
Proof.
  apply list_eq. intros k. unfold uploadIds, CSVUploader.guestsToInsert.
  rewrite list_lookup_fmap, !list_lookup_imap.
  by destruct (data !! k).
Qed.

Lemma insertRows_empty uuid now data headers :
  NoDup (uploadIds data headers) →
  Supabase.insertRows None uuid now
    (CSVUploader.guestsToInsert data headers) []
  = (None,
     imap (Supabase.withDefaults uuid now)
       (CSVUploader.guestsToInsert data headers)).
Proof.
  intros Hnd. unfold Supabase.insertRows. rewrite app_nil_l.
  rewrite inserted_guest_ids. by rewrite bool_decide_eq_true_2.
Qed.

(** C4, as the claim states it, fails. In an upload with the columns DNI,
    Apellido and Nombre the identifier column is Apellido (it contains id;
    DNI does not), so two guests with the same surname get the same
    identifier. The upload passes every check of the uploader, the unique
    index on [guest_id] rejects the insert, and the table, emptied by the
    delete, holds no record for the two rows. *)
Lemma replaceAll_rejects_equal_identifiers :
  let data : list Row :=
    [ list_to_map [("DNI", JNum 30111222); ("Apellido", JStr "Paz");
                   ("Nombre", JStr "Ana")];
      list_to_map [("DNI", JNum 30111333); ("Apellido", JStr "Paz");
                   ("Nombre", JStr "Luis")] ] in
  let headers := ["DNI"; "Apellido"; "Nombre"] in
  let svc :=
    {| CSVUploader.deleteFault := None;
       CSVUploader.insertFault := None;
       CSVUploader.gen_random_uuid := λ k, "uuid-" +:+ pretty k;
       CSVUploader.now := 0%Z |} in
  uploadIds data headers = ["Paz"; "Paz"]
  ∧ CSVUploader.saveGuestsToSupabase svc data headers []
    = ([], {| title := "Error al guardar";
              description := Supabase.uniqueViolation;
              destructive := true |})
  ∧ length (CSVUploader.saveGuestsToSupabase svc data headers []).1
    ≠ length data.
Proof. vm_compute. split_and!; congruence. Qed.

(** C4, amended. When the identifiers of the rows of an upload are pairwise
    distinct and both the delete and the insert succeed (no stored record
    has the nil UUID the delete spares), the table afterwards holds one
    record per row, in the order of the rows: record [k] has
    [guest_data] equal to row [k], [confirmed = false], no [confirmed_at]
    and the identifier of row [k]; the toast reports the number saved. *)
Theorem replaceAll_stores_every_row (svc : CSVUploader.Service)
    (data : list Row) (headers : list string) (t : Supabase.Table) :
  CSVUploader.deleteFault svc = None →
  CSVUploader.insertFault svc = None →
  Forall (λ r, Guest.id r ≠ CSVUploader.nilUuid) t →
  NoDup (uploadIds data headers) →
  ∃ t' toast,
    CSVUploader.saveGuestsToSupabase svc data headers t = (t', toast)
    ∧ length t' = length data
    ∧ (∀ k row, data !! k = Some row →
         ∃ r, t' !! k = Some r
              ∧ Guest.guest_data r = row
              ∧ Guest.confirmed r = false
              ∧ Guest.confirmed_at r = None
              ∧ Guest.guest_id r = CSVUploader.guestIdOf headers row k)
    ∧ (∀ r, r ∈ t' → Guest.confirmed r = false)
    ∧ destructive toast = false.
Proof.
  intros Hdel Hins Hids Hnd. unfold CSVUploader.saveGuestsToSupabase.
  rewrite Hdel, Hins, (deleteWhereIdNeq_all _ _ Hids). cbn [snd].
  rewrite (insertRows_empty _ _ _ _ Hnd).
  eexists _, _. split_and!; [done | | | | done].
  - unfold CSVUploader.guestsToInsert. by rewrite !length_imap.
  - intros k row Hk. unfold CSVUploader.guestsToInsert.
    rewrite !list_lookup_imap, Hk. simpl. eexists. by split_and!.
  - intros r (k & g & -> & Hg)%elem_of_lookup_imap.
    unfold CSVUploader.guestsToInsert in Hg.
    apply list_lookup_imap_Some in Hg as (row & _ & ->). done.
Qed.

Lemma replaceAll_stores_every_row_witness :
  ∃ t' toast,
    CSVUploader.saveGuestsToSupabase
      {| CSVUploader.deleteFault := None;
         CSVUploader.insertFault := None;
         CSVUploader.gen_random_uuid := λ k, "uuid-" +:+ pretty k;
         CSVUploader.now := 7%Z |}
      [ana; anaA1] ["Nombre"]
      [Guest.mk "uuid-old" "guest_1" ana true (Some 3%Z) 1%Z 3%Z]
    = (t', toast)
    ∧ length t' = 2.
Proof.
  destruct (replaceAll_stores_every_row
              {| CSVUploader.deleteFault := None;
                 CSVUploader.insertFault := None;
                 CSVUploader.gen_random_uuid := λ k, "uuid-" +:+ pretty k;
                 CSVUploader.now := 7%Z |}
              [ana; anaA1] ["Nombre"]
              [Guest.mk "uuid-old" "guest_1" ana true (Some 3%Z) 1%Z 3%Z])
    as (t' & toast & Heq & Hlen & _).
  - reflexivity.
  - reflexivity.
  - repeat constructor. by vm_compute.
  - by apply (bool_decide_unpack _).
  - by exists t', toast.
Defined.

(** ** Failures of the store during an upload *)

(** A failed insert is shown: the toast is destructive and carries the
    message of the failure. *)
Lemma insert_failure_is_shown svc data headers t message :
  CSVUploader.insertFault svc = Some message → message ≠ "" →
  (CSVUploader.saveGuestsToSupabase svc data headers t).2
  = {| title := "Error al guardar"; description := message;
       destructive := true |}.
Proof.
  intros Hins Hne. unfold CSVUploader.saveGuestsToSupabase.
  rewrite Hins. simpl. by destruct message.
Qed.

(** C6. A failed delete is not shown. With one record in the table, a
    delete that fails with "connection lost" and an insert that succeeds,
    [saveGuestsToSupabase] keeps the old record, adds the new one and
    shows the toast of success. *)
Theorem delete_failure_is_not_shown :
  let old := Guest.mk "uuid-old" "A7" anaA1 true (Some 3%Z) 1%Z 3%Z in
  let svc :=
    {| CSVUploader.deleteFault := Some "connection lost";
       CSVUploader.insertFault := None;
       CSVUploader.gen_random_uuid := λ k, "uuid-" +:+ pretty k;
       CSVUploader.now := 7%Z |} in
  CSVUploader.saveGuestsToSupabase svc [ana] ["Nombre"] [old]
  = ([old; Guest.mk "uuid-0" "guest_1" ana false None 7%Z 7%Z],
     {| title := "Datos guardados";
        description := "1 invitados guardados en la base de datos.";
        destructive := false |}).
Proof. by vm_compute. Qed.

(** ** Confirming a guest *)

Lemma fmap_unique {A B} (f : A → B) (l : list A) (x y : A) :
  NoDup (f <$> l) → x ∈ l → y ∈ l → f x = f y → x = y.
Proof.
  induction l as [| a l IH]; intros Hnd Hx Hy Hxy.
  - by apply elem_of_nil in Hx.
  - rewrite fmap_cons in Hnd. apply NoDup_cons in Hnd as [Ha Hnd].
    apply elem_of_cons in Hx as [-> | Hx];
      apply elem_of_cons in Hy as [-> | Hy]; [done | | | by apply IH].
    + exfalso. apply Ha. rewrite Hxy. by apply list_elem_of_fmap_2.
    + exfalso. apply Ha. rewrite <- Hxy. by apply list_elem_of_fmap_2.
Qed.

(** After a load the set of confirmed identifiers agrees with the table:
    the identifier of a record is in the set exactly when the record is
    confirmed. *)
Lemma load_agrees (t : Supabase.Table) st r :
  NoDup (Guest.guest_id <$> t) → r ∈ t →
  Guest.guest_id r
    ∈ GuestTable.confirmedGuests
        (GuestTable.loadGuestsFromSupabase None t st).1
  ↔ Guest.confirmed r = true.
Proof.
  intros Hnd Hr. simpl. unfold GuestTable.confirmedSet.
  rewrite elem_of_list_to_set, list_elem_of_fmap. split.
  - intros (y & Hid & [Hy Hin]%list_elem_of_filter).
    rewrite merge_sort_Permutation in Hin.
    by rewrite (fmap_unique _ _ _ _ Hnd Hr Hin Hid).
  - intros Hc. exists r. split; [done |].
    apply list_elem_of_filter. by rewrite merge_sort_Permutation.
Qed.

Lemma handleConfirmGuest_ok now date guestId (t : Supabase.Table) st :
  ∃ toast,
    GuestTable.handleConfirmGuest None now date guestId t st
    = (Supabase.setConfirmed now guestId
         (negb (bool_decide (guestId ∈ GuestTable.confirmedGuests st)))
         (if bool_decide (guestId ∈ GuestTable.confirmedGuests st)
          then None else Some date) <$> t,
       {| GuestTable.supabaseGuests := GuestTable.supabaseGuests st;
          GuestTable.confirmedGuests :=
            if bool_decide (guestId ∈ GuestTable.confirmedGuests st)
            then GuestTable.confirmedGuests st ∖ {[guestId]}
            else GuestTable.confirmedGuests st ∪ {[guestId]} |},
       toast)
    ∧ destructive toast = false.
Proof.
  unfold GuestTable.handleConfirmGuest, Supabase.updateWhereGuestIdEq.
  destruct (bool_decide (guestId ∈ GuestTable.confirmedGuests st));
    simpl; by eexists.
Qed.

(** One successful toggle, for a record on which the set of confirmed
    identifiers agrees with the table. *)
Lemma toggle_once now date (t : Supabase.Table) st k r :
  t !! k = Some r →
  (Guest.guest_id r ∈ GuestTable.confirmedGuests st
   ↔ Guest.confirmed r = true) →
  ∃ t1 st1 toast1,
    GuestTable.handleConfirmGuest None now date (Guest.guest_id r) t st
    = (t1, st1, toast1)
    ∧ destructive toast1 = false
    ∧ t1 !! k
      = Some (Guest.mk (Guest.id r) (Guest.guest_id r) (Guest.guest_data r)
                (negb (Guest.confirmed r))
                (if Guest.confirmed r then None else Some date)
                (Guest.created_at r) now)
    ∧ (Guest.guest_id r ∈ GuestTable.confirmedGuests st1
       ↔ negb (Guest.confirmed r) = true).
Proof.
  intros Hk Hagree.
  destruct (handleConfirmGuest_ok now date (Guest.guest_id r) t st)
    as (toast & -> & Htoast).
  eexists _, _, _. split_and!; [done | done | |].
  - rewrite list_lookup_fmap, Hk. simpl. unfold Supabase.setConfirmed.
    rewrite bool_decide_eq_true_2 by done.
    case_bool_decide as Hin; destruct (Guest.confirmed r) eqn:Hc;
      try done; intuition congruence.
  - simpl. case_bool_decide as Hin; destruct (Guest.confirmed r) eqn:Hc;
      simpl; rewrite ?elem_of_difference, ?elem_of_union, ?elem_of_singleton;
      intuition congruence.
Qed.

(** The agreement between the set and the table, for all records, is kept
    by every toggle, whether the store accepts it or fails it. *)
Lemma toggle_keeps_agreement fault now date guestId (t : Supabase.Table) st :
  (∀ r, r ∈ t →
     Guest.guest_id r ∈ GuestTable.confirmedGuests st
     ↔ Guest.confirmed r = true) →
  ∀ r, r ∈ (GuestTable.handleConfirmGuest fault now date guestId t st).1.1 →
    Guest.guest_id r
      ∈ GuestTable.confirmedGuests
          (GuestTable.handleConfirmGuest fault now date guestId t st).1.2
    ↔ Guest.confirmed r = true.
Proof.
  intros Hagree r. destruct fault as [message |]; [apply Hagree |].
  destruct (handleConfirmGuest_ok now date guestId t st) as (toast & -> & _).
  cbn [fst snd GuestTable.confirmedGuests].
  intros (r0 & -> & Hr0%Hagree)%list_elem_of_fmap.
  unfold Supabase.setConfirmed.
  case_bool_decide as Hid; case_bool_decide as Hin; simpl;
    rewrite ?elem_of_difference, ?elem_of_union, ?elem_of_singleton;
    [| | rewrite Hr0 ..]; intuition congruence.
Qed.

(** C7, as the claim states it, fails when the set of confirmed
    identifiers is behind the table. The record A1 is confirmed in the
    table and the set is empty (a load has failed or is still to come):
    the toggle writes [confirmed = true] again, so the flag does not flip,
    and the second toggle leaves the record not confirmed, which is not
    its first value. *)
Lemma toggle_from_a_stale_set_does_not_flip :
  let r := Guest.mk "uuid-0" "A1" anaA1 true (Some 3%Z) 1%Z 3%Z in
  let first :=
    GuestTable.handleConfirmGuest None 5%Z 4%Z "A1" [r] GuestTable.initial in
  let second :=
    GuestTable.handleConfirmGuest None 9%Z 8%Z "A1" first.1.1 first.1.2 in
  Guest.confirmed <$> [r] = [true]
  ∧ Guest.confirmed <$> first.1.1 = [true]
  ∧ destructive first.2 = false
  ∧ Guest.confirmed <$> second.1.1 = [false].
Proof. by vm_compute. Qed.

(** C7, amended. For a record of the table whose identifier is in the set
    of confirmed identifiers exactly when the record is confirmed (the
    state every load produces and every toggle keeps), a toggle that the
    store accepts flips [confirmed], sets [confirmed_at] to the date of the
    call when the record becomes confirmed and to null when it stops being
    so, and leaves the other columns but [updated_at]; the set follows. A
    second toggle brings [confirmed] back to its first value. *)
Theorem toggle_flips_confirmed (now date now' date' : Timestamp)
    (t : Supabase.Table) (st : GuestTable.State) (k : nat) (r : Guest.t) :
  t !! k = Some r →
  (Guest.guest_id r ∈ GuestTable.confirmedGuests st
   ↔ Guest.confirmed r = true) →
  ∃ t1 st1 toast1 r1 t2 st2 toast2 r2,
    GuestTable.handleConfirmGuest None now date (Guest.guest_id r) t st
    = (t1, st1, toast1)
    ∧ t1 !! k = Some r1
    ∧ Guest.confirmed r1 = negb (Guest.confirmed r)
    ∧ Guest.confirmed_at r1
      = (if Guest.confirmed r1 then Some date else None)
    ∧ (Guest.id r1, Guest.guest_id r1, Guest.guest_data r1)
      = (Guest.id r, Guest.guest_id r, Guest.guest_data r)
    ∧ (Guest.guest_id r ∈ GuestTable.confirmedGuests st1
       ↔ Guest.confirmed r1 = true)
    ∧ GuestTable.handleConfirmGuest None now' date' (Guest.guest_id r) t1 st1
      = (t2, st2, toast2)
    ∧ t2 !! k = Some r2
    ∧ Guest.confirmed r2 = Guest.confirmed r
    ∧ (Guest.guest_id r ∈ GuestTable.confirmedGuests st2
       ↔ Guest.confirmed r2 = true).
Proof.
  intros Hk Hagree.
  destruct (toggle_once now date t st k r Hk Hagree)
    as (t1 & st1 & toast1 & H1 & _ & Hk1 & Hagree1).
  set (r1 := Guest.mk _ _ _ _ _ _ _) in Hk1.
  destruct (toggle_once now' date' t1 st1 k r1 Hk1 Hagree1)
    as (t2 & st2 & toast2 & H2 & _ & Hk2 & Hagree2).
  set (r2 := Guest.mk _ _ _ _ _ _ _) in Hk2.
  exists t1, st1, toast1, r1, t2, st2, toast2, r2.
  split_and!; try done.
  - subst r1. simpl. by destruct (Guest.confirmed r).
  - subst r2 r1. simpl. apply negb_involutive.
Qed.

Lemma toggle_flips_confirmed_witness :
  let r := Guest.mk "uuid-0" "A1" anaA1 false None 1%Z 1%Z in
  ∃ t1 st1 toast1 r1,
    GuestTable.handleConfirmGuest None 5%Z 4%Z "A1" [r] GuestTable.initial
    = (t1, st1, toast1)
    ∧ t1 !! 0 = Some r1
    ∧ Guest.confirmed r1 = true.
Proof.
  intros r.
  destruct (toggle_flips_confirmed 5%Z 4%Z 9%Z 8%Z [r] GuestTable.initial 0 r)
    as (t1 & st1 & toast1 & r1 & _ & _ & _ & _ & H1 & Hk1 & Hc1 & _).
  - reflexivity.
  - simpl. split; [intros []%not_elem_of_empty | discriminate].
  - by exists t1, st1, toast1, r1.
Defined.

Lemma setConfirmed_others now g c at_ (t : Supabase.Table) :
  Forall (λ r, Guest.guest_id r ≠ g) t →
  Supabase.setConfirmed now g c at_ <$> t = t.
Proof.
  induction 1 as [| r t Hr _ IH]; [done |].
  rewrite fmap_cons, IH. unfold Supabase.setConfirmed.
  by rewrite bool_decide_eq_false_2.
Qed.

(** C8, as the claim states it, fails: with no record for guest_0 the
    update matches no row and is no error, so the call ends with the toast
    of success and guest_0 in the set of confirmed identifiers. *)
Lemma toggle_without_record_is_no_failure :
  let result :=
    GuestTable.handleConfirmGuest None 5%Z 4%Z "guest_0" []
      GuestTable.initial in
  result.1.1 = []
  ∧ ("guest_0" ∉ GuestTable.confirmedGuests GuestTable.initial)
  ∧ ("guest_0" ∈ GuestTable.confirmedGuests result.1.2)
  ∧ result.2 = {| title := "Invitado confirmado";
                  description := "El invitado guest_0 ha sido confirmado.";
                  destructive := false |}.
Proof.
  split_and!; [done | apply not_elem_of_empty | | done].
  apply (bool_decide_unpack _). by vm_compute.
Qed.

(** C8, amended. For an identifier with no record in the table, a toggle
    that the store accepts changes no record and is no failure: the toast
    is the one of success and the identifier is toggled in the set of
    confirmed identifiers, the other identifiers staying as they are. Only
    a request that the store fails leaves the table and the set as they
    were and shows the toast of failure. *)
Theorem toggle_without_record (now date : Timestamp) (guestId : string)
    (t : Supabase.Table) (st : GuestTable.State) :
  Forall (λ r, Guest.guest_id r ≠ guestId) t →
  (∃ st' toast,
     GuestTable.handleConfirmGuest None now date guestId t st
     = (t, st', toast)
     ∧ destructive toast = false
     ∧ (guestId ∈ GuestTable.confirmedGuests st'
        ↔ ¬ guestId ∈ GuestTable.confirmedGuests st)
     ∧ (∀ g, g ≠ guestId →
          g ∈ GuestTable.confirmedGuests st'
          ↔ g ∈ GuestTable.confirmedGuests st)
     ∧ GuestTable.supabaseGuests st' = GuestTable.supabaseGuests st)
  ∧ (∀ message,
       GuestTable.handleConfirmGuest (Some message) now date guestId t st
       = (t, st,
          {| title := "Error al actualizar";
             description := "No se pudo actualizar el estado del invitado.";
             destructive := true |})).
Proof.
  intros Hnone. split; [| done].
  destruct (handleConfirmGuest_ok now date guestId t st)
    as (toast & -> & Htoast).
  rewrite (setConfirmed_others _ _ _ _ _ Hnone).
  eexists _, _. split_and!; [done | done | | | done]; simpl.
  - case_bool_decide as Hin;
      rewrite ?elem_of_difference, ?elem_of_union, ?elem_of_singleton;
      intuition congruence.
  - intros g Hg. case_bool_decide as Hin;
      rewrite ?elem_of_difference, ?elem_of_union, ?elem_of_singleton;
      intuition congruence.
Qed.

Lemma toggle_without_record_witness :
  ∃ st' toast,
    GuestTable.handleConfirmGuest None 5%Z 4%Z "guest_0"
      [Guest.mk "uuid-0" "guest_1" ana false None 1%Z 1%Z] GuestTable.initial
    = ([Guest.mk "uuid-0" "guest_1" ana false None 1%Z 1%Z], st', toast)
    ∧ destructive toast = false
    ∧ "guest_0" ∈ GuestTable.confirmedGuests st'.
Proof.
  destruct (toggle_without_record 5%Z 4%Z "guest_0"
              [Guest.mk "uuid-0" "guest_1" ana false None 1%Z 1%Z]
              GuestTable.initial)
    as [(st' & toast & Heq & Htoast & Hin & _) _].
  - repeat constructor. by vm_compute.
  - exists st', toast. split_and!; [done | done |].
    apply Hin, not_elem_of_empty.
Defined.

(** ** Search *)

Lemma values_lookup (row : Row) (value : JsValue) :
  value ∈ Obj.values row ↔ ∃ column, row !! column = Some value.
Proof.
  unfold Obj.values. rewrite list_elem_of_fmap. split.
  - intros ([column v] & -> & Hin). exists column.
    by apply elem_of_map_to_list.
  - intros [column Hc]. exists (column, value). split; [done |].
    by apply elem_of_map_to_list.
Qed.

(** A row matches when some cell that is neither null nor undefined has a
    string that contains the term, both in lower case. *)
Lemma rowMatches_spec searchTerm (row : Row) :
  GuestTable.rowMatches searchTerm row = true
  ↔ ∃ column value s,
      row !! column = Some value
      ∧ Obj.toString value = Some s
      ∧ Js.includes (Js.toLowerCase s) (Js.toLowerCase searchTerm) = true.
Proof.
  unfold GuestTable.rowMatches. rewrite existsb_exists. split.
  - intros (value & [column Hc]%list_elem_of_In%values_lookup & Hm).
    unfold GuestTable.valueMatches in Hm.
    destruct (Obj.toString value) as [s |] eqn:Hs; [| done].
    by exists column, value, s.
  - intros (column & value & s & Hc & Hs & Hm). exists value. split.
    + apply list_elem_of_In, values_lookup. by exists column.
    + unfold GuestTable.valueMatches. by rewrite Hs.
Qed.

Lemma filter_none {A} (f : A → bool) (l : list A) :
  Forall (λ x, f x = false) l → List.filter f l = [].
Proof. induction 1 as [| x l Hx _ IH]; simpl; [done | by rewrite Hx]. Qed.

Lemma truthy_false s : Js.truthy s = false ↔ s = "".
Proof. destruct s; by split. Qed.

Lemma filteredData_blank st data searchTerm :
  Js.trim searchTerm = "" →
  GuestTable.filteredData st data searchTerm = GuestTable.currentData st data.
Proof. intros Hb. unfold GuestTable.filteredData. by rewrite Hb. Qed.

Lemma filteredData_term st data searchTerm :
  Js.trim searchTerm ≠ "" →
  GuestTable.filteredData st data searchTerm
  = List.filter (GuestTable.rowMatches searchTerm)
      (GuestTable.currentData st data).
Proof.
  intros Hb. unfold GuestTable.filteredData.
  destruct (Js.truthy (Js.trim searchTerm)) eqn:Ht; [done |].
  by apply truthy_false in Ht.
Qed.

(** C9, as the claim states it, fails for a term of white space: the term
    of one space is not empty and no cell of the row contains it, yet the
    row is kept and the table is shown, not the card of the empty result. *)
Lemma search_for_a_space_keeps_every_row :
  GuestTable.rowMatches " " ana = false
  ∧ GuestTable.filteredData GuestTable.initial [ana] " " = [ana]
  ∧ GridTable_render GuestTable.initial [ana] " " = GuestRows [ana]
  ∧ GridTable_render GuestTable.initial [ana] " " ≠ GuestNotFound " ".
Proof. by vm_compute. Qed.

(** C9, amended. A term that is empty or only white space returns all rows.
    For any other term a row is returned exactly when it is a row of the
    data and some cell of it, neither null nor undefined, has a string that
    contains the term, both in lower case. In the grid version, with rows
    in the data, such a term that matches no row gives the card of the
    empty result, which is not the card shown when there are no rows at
    all. *)
Theorem search_filters_rows (st : GuestTable.State) (data : list Row)
    (searchTerm : string) :
  (Js.trim searchTerm = "" →
   GuestTable.filteredData st data searchTerm = GuestTable.currentData st data)
  ∧ GuestTable.filteredData st data "" = GuestTable.currentData st data
  ∧ (Js.trim searchTerm ≠ "" →
     ∀ row,
       row ∈ GuestTable.filteredData st data searchTerm
       ↔ row ∈ GuestTable.currentData st data
         ∧ ∃ column value s,
             row !! column = Some value
             ∧ Obj.toString value = Some s
             ∧ Js.includes (Js.toLowerCase s) (Js.toLowerCase searchTerm)
               = true)
  ∧ (GuestTable.currentData st data = [] →
     GridTable_render st data searchTerm = NoGuestsLoaded)
  ∧ (Js.trim searchTerm ≠ "" →
     GuestTable.currentData st data ≠ [] →
     Forall (λ row, GuestTable.rowMatches searchTerm row = false)
       (GuestTable.currentData st data) →
     GuestTable.filteredData st data searchTerm = []
     ∧ GridTable_render st data searchTerm = GuestNotFound searchTerm
     ∧ GridTable_render st data searchTerm ≠ NoGuestsLoaded).
Proof.
  split_and!.
  - apply filteredData_blank.
  - by apply filteredData_blank.
  - intros Hb row. rewrite (filteredData_term _ _ _ Hb).
    by rewrite list_elem_of_In, filter_In, <- list_elem_of_In, rowMatches_spec.
  - intros Hnil. unfold GridTable_render. by rewrite Hnil.
  - intros Hb Hrows Hnone.
    assert (GuestTable.filteredData st data searchTerm = []) as Hf.
    { rewrite (filteredData_term _ _ _ Hb). by apply filter_none. }
    unfold GridTable_render. rewrite Hf.
    rewrite bool_decide_eq_false_2
      by (by destruct (GuestTable.currentData st data)).
    assert (Js.truthy searchTerm = true) as ->.
    { destruct searchTerm; [by vm_compute in Hb | done]. }
    done.
Qed.

Lemma search_filters_rows_witness :
  GuestTable.filteredData GuestTable.initial [ana] "zz" = []
  ∧ GridTable_render GuestTable.initial [ana] "zz" = GuestNotFound "zz"
  ∧ GridTable_render GuestTable.initial [ana] "zz" ≠ NoGuestsLoaded.
Proof.
  destruct (search_filters_rows GuestTable.initial [ana] "zz")
    as (_ & _ & _ & _ & H).
  apply H.
  - by vm_compute.
  - done.
  - repeat constructor.
Defined.

(** ** The rows shown when the store has rows *)

Lemma displayRow_lookup g :
  GuestTable.displayRow g !! "_guest_id" = Some (JStr (Guest.guest_id g))
  ∧ GuestTable.displayRow g !! "_supabase_id" = Some (JStr (Guest.id g))
  ∧ (∀ column, column ≠ "_guest_id" → column ≠ "_supabase_id" →
       GuestTable.displayRow g !! column = Guest.guest_data g !! column).
Proof.
  unfold GuestTable.displayRow. split_and!.
  - apply lookup_insert_eq.
  - rewrite lookup_insert_ne by done. apply lookup_insert_eq.
  - intros column H1 H2. by rewrite !lookup_insert_ne.
Qed.

(** C10. A load brings every row of the store into the state. When the
    state holds rows of the store, the rows shown and searched are those
    rows with the fields [_supabase_id] and [_guest_id] added to the
    columns of [guest_data]; a term contained in the key or in
    the identifier of a record matches its row; and there is a table, with
    one guest whose only column is Nombre with Ana, where the terms guest_
    and 7b0e occur in no column and still return the row. *)
Theorem search_scans_internal_fields :
  (∀ (t : Supabase.Table) st,
     length (GuestTable.supabaseGuests
               (GuestTable.loadGuestsFromSupabase None t st).1)
     = length t)
  ∧ (∀ st data,
       GuestTable.supabaseGuests st ≠ [] →
       GuestTable.currentData st data
       = GuestTable.displayRow <$> GuestTable.supabaseGuests st)
  ∧ (∀ g,
       GuestTable.displayRow g !! "_guest_id"
       = Some (JStr (Guest.guest_id g))
       ∧ GuestTable.displayRow g !! "_supabase_id"
         = Some (JStr (Guest.id g))
       ∧ (∀ column, column ≠ "_guest_id" → column ≠ "_supabase_id" →
            GuestTable.displayRow g !! column
            = Guest.guest_data g !! column))
  ∧ (∀ g searchTerm,
       Js.includes (Js.toLowerCase (Guest.id g)) (Js.toLowerCase searchTerm)
       = true
       ∨ Js.includes (Js.toLowerCase (Guest.guest_id g))
           (Js.toLowerCase searchTerm) = true →
       GuestTable.rowMatches searchTerm (GuestTable.displayRow g) = true)
  ∧ (let g := Guest.mk "7b0e2c1a-uuid" "guest_1" ana false None 1%Z 1%Z in
     let st := {| GuestTable.supabaseGuests := [g];
                  GuestTable.confirmedGuests := ∅ |} in
     GuestTable.rowMatches "guest_" (Guest.guest_data g) = false
     ∧ GuestTable.rowMatches "7b0e" (Guest.guest_data g) = false
     ∧ GuestTable.filteredData st [] "guest_" = [GuestTable.displayRow g]
     ∧ GuestTable.filteredData st [] "7b0e" = [GuestTable.displayRow g]).
Proof.
  split_and!.
  - intros t st. simpl. by rewrite merge_sort_Permutation.
  - intros st data Hrows. unfold GuestTable.currentData.
    rewrite bool_decide_eq_true_2; [done |].
    destruct (GuestTable.supabaseGuests st); [done | simpl; lia].
  - apply displayRow_lookup.
  - intros g searchTerm Hin. apply rowMatches_spec.
    destruct (displayRow_lookup g) as (Hg & Hs & _).
    destruct Hin as [Hin | Hin].
    + by exists "_supabase_id", (JStr (Guest.id g)), (Guest.id g).
    + by exists "_guest_id", (JStr (Guest.guest_id g)), (Guest.guest_id g).
  - by vm_compute.
Qed.

(** * Further properties of the code *)

(** ** The table under uploads and toggles *)

Lemma setConfirmed_guest_id now g c at_ (t : Supabase.Table) :
  Guest.guest_id <$> (Supabase.setConfirmed now g c at_ <$> t)
  = Guest.guest_id <$> t.
Proof.
  rewrite <- list_fmap_compose. apply list_fmap_ext. intros _ r _. simpl.
  unfold Supabase.setConfirmed. by case_bool_decide.
Qed.

Lemma handleConfirmGuest_table fault now date guestId (t : Supabase.Table) st :
  (GuestTable.handleConfirmGuest fault now date guestId t st).1.1 = t
  ∨ ∃ c at_,
      (GuestTable.handleConfirmGuest fault now date guestId t st).1.1
      = Supabase.setConfirmed now guestId c at_ <$> t
      ∧ (c = true ↔ is_Some at_).
Proof.
  destruct fault as [message |]; [by left | right].
  destruct (handleConfirmGuest_ok now date guestId t st) as (toast & -> & _).
  eexists _, _. split; [done |].
  case_bool_decide; simpl; split; try done; by intros [? ?].
Qed.

Lemma deleteWhereIdNeq_sublist fault v (t : Supabase.Table) :
  (Supabase.deleteWhereIdNeq fault v t).2 `sublist_of` t.
Proof. destruct fault; simpl; [done | apply sublist_filter]. Qed.

Lemma insertRows_table fault uuid now rows (t : Supabase.Table) :
  (Supabase.insertRows fault uuid now rows t).2 = t
  ∨ (Supabase.insertRows fault uuid now rows t).2
    = t ++ imap (Supabase.withDefaults uuid now) rows
    ∧ UniqueIds (t ++ imap (Supabase.withDefaults uuid now) rows)
    ∧ (Supabase.insertRows fault uuid now rows t).1 = None.
Proof.
  unfold Supabase.insertRows. destruct fault; [by left |].
  case_bool_decide; [by right | by left].
Qed.

Lemma saveGuestsToSupabase_table svc data headers (t : Supabase.Table) :
  let t1 :=
    (Supabase.deleteWhereIdNeq (CSVUploader.deleteFault svc)
       CSVUploader.nilUuid t).2 in
  let result :=
    Supabase.insertRows (CSVUploader.insertFault svc)
      (CSVUploader.gen_random_uuid svc) (CSVUploader.now svc)
      (CSVUploader.guestsToInsert data headers) t1 in
  (CSVUploader.saveGuestsToSupabase svc data headers t).1 = result.2
  ∧ destructive (CSVUploader.saveGuestsToSupabase svc data headers t).2
    = bool_decide (result.1 ≠ None).
Proof.
  cbv zeta. unfold CSVUploader.saveGuestsToSupabase.
  destruct (Supabase.insertRows _ _ _ _ _) as [[message |] t2]; by simpl.
Qed.

(** The unique index is kept by the model of the store: a table whose
    identifiers are pairwise distinct stays so under every upload and every
    toggle, whatever the requests meet. *)
Theorem unique_guest_id_is_kept (svc : CSVUploader.Service)
    (data : list Row) (headers : list string) (fault : Supabase.Fault)
    (now date : Timestamp) (guestId : string) (t : Supabase.Table)
    (st : GuestTable.State) :
  UniqueIds t →
  UniqueIds (CSVUploader.saveGuestsToSupabase svc data headers t).1
  ∧ UniqueIds
      (GuestTable.handleConfirmGuest fault now date guestId t st).1.1.
Proof.
  intros Ht. split.
  - destruct (saveGuestsToSupabase_table svc data headers t) as [-> _].
    destruct (insertRows_table (CSVUploader.insertFault svc)
                (CSVUploader.gen_random_uuid svc) (CSVUploader.now svc)
                (CSVUploader.guestsToInsert data headers)
                (Supabase.deleteWhereIdNeq (CSVUploader.deleteFault svc)
                   CSVUploader.nilUuid t).2) as [-> | (-> & Hu & _)];
      [| done].
    eapply sublist_NoDup; [exact Ht |].
    apply fmap_sublist, deleteWhereIdNeq_sublist.
  - destruct (handleConfirmGuest_table fault now date guestId t st)
      as [-> | (c & at_ & -> & _)]; [done |].
    unfold UniqueIds. by rewrite setConfirmed_guest_id.
Qed.

Lemma unique_guest_id_is_kept_witness :
  UniqueIds
    (GuestTable.handleConfirmGuest None 5%Z 4%Z "A1"
       [Guest.mk "uuid-0" "A1" anaA1 false None 1%Z 1%Z;
        Guest.mk "uuid-1" "guest_2" ana false None 1%Z 1%Z]
       GuestTable.initial).1.1.
Proof.
  apply (unique_guest_id_is_kept
           {| CSVUploader.deleteFault := None;
              CSVUploader.insertFault := None;
              CSVUploader.gen_random_uuid := λ k, pretty k;
              CSVUploader.now := 0%Z |} [] []).
  by apply (bool_decide_unpack _).
Defined.

(** X2. [confirmed_at] follows [confirmed]: if every record of the table
    has a date of confirmation exactly when it is confirmed, the same holds
    after every upload and after every toggle. *)
Theorem confirmed_at_follows_confirmed (svc : CSVUploader.Service)
    (data : list Row) (headers : list string) (fault : Supabase.Fault)
    (now date : Timestamp) (guestId : string) (t : Supabase.Table)
    (st : GuestTable.State) :
  Forall Stamped t →
  Forall Stamped (CSVUploader.saveGuestsToSupabase svc data headers t).1
  ∧ Forall Stamped
      (GuestTable.handleConfirmGuest fault now date guestId t st).1.1.
Proof.
  intros Ht. split.
  - destruct (saveGuestsToSupabase_table svc data headers t) as [-> _].
    assert (Forall Stamped
              (Supabase.deleteWhereIdNeq (CSVUploader.deleteFault svc)
                 CSVUploader.nilUuid t).2) as Ht1.
    { apply Forall_forall. intros r Hr.
      apply (proj1 (Forall_forall _ _) Ht).
      eapply elem_of_sublist; [exact Hr | apply deleteWhereIdNeq_sublist]. }
    destruct (insertRows_table (CSVUploader.insertFault svc)
                (CSVUploader.gen_random_uuid svc) (CSVUploader.now svc)
                (CSVUploader.guestsToInsert data headers)
                (Supabase.deleteWhereIdNeq (CSVUploader.deleteFault svc)
                   CSVUploader.nilUuid t).2) as [-> | (-> & _ & _)];
      [done |].
    apply Forall_app. split; [done |].
    apply Forall_forall. intros r (k & g & -> & Hg)%elem_of_lookup_imap.
    unfold CSVUploader.guestsToInsert in Hg.
    apply list_lookup_imap_Some in Hg as (row & _ & ->).
    split; [done | by intros [? ?]].
  - destruct (handleConfirmGuest_table fault now date guestId t st)
      as [-> | (c & at_ & -> & Hc)]; [done |].
    apply Forall_fmap. eapply Forall_impl; [exact Ht |].
    intros r Hr. simpl. unfold Supabase.setConfirmed.
    by case_bool_decide.
Qed.

Lemma confirmed_at_follows_confirmed_witness :
  Forall Stamped
    (GuestTable.handleConfirmGuest None 5%Z 4%Z "A1"
       [Guest.mk "uuid-0" "A1" anaA1 false None 1%Z 1%Z]
       GuestTable.initial).1.1.
Proof.
  apply (confirmed_at_follows_confirmed
           {| CSVUploader.deleteFault := None;
              CSVUploader.insertFault := None;
              CSVUploader.gen_random_uuid := λ k, pretty k;
              CSVUploader.now := 0%Z |} [] []).
  repeat constructor; [done | by intros [? ?]].
Defined.

(** X3. A toggle changes nothing but [confirmed], [confirmed_at] and
    [updated_at], and only in records of the toggled identifier. Whatever
    the order in which the store keeps its rows: the records afterwards
    are, up to order, the images of the records before under a map that
    keeps the key, the identifier, the data and the date of creation of
    every record and leaves a record of another identifier as it is. *)
Theorem toggle_touches_one_guest (fault : Supabase.Fault)
    (now date : Timestamp) (guestId : string) (t : Supabase.Table)
    (st : GuestTable.State) :
  ∃ f : Guest.t → Guest.t,
    (GuestTable.handleConfirmGuest fault now date guestId t st).1.1
    ≡ₚ f <$> t
    ∧ ∀ r,
        Guest.id (f r) = Guest.id r
        ∧ Guest.guest_id (f r) = Guest.guest_id r
        ∧ Guest.guest_data (f r) = Guest.guest_data r
        ∧ Guest.created_at (f r) = Guest.created_at r
        ∧ (Guest.guest_id r ≠ guestId → f r = r).
Proof.
  destruct (handleConfirmGuest_table fault now date guestId t st)
    as [-> | (c & at_ & -> & _)].
  - exists id. by rewrite list_fmap_id.
  - exists (Supabase.setConfirmed now guestId c at_). split; [done |].
    intros r. unfold Supabase.setConfirmed. by case_bool_decide.
Qed.

(** X4. When the delete has gone through and the insert is refused, by a
    failure of the request or by the unique index, the table is left empty
    and the toast is the destructive one. *)
Theorem refused_insert_leaves_the_table_empty (svc : CSVUploader.Service)
    (data : list Row) (headers : list string) (t : Supabase.Table) :
  CSVUploader.deleteFault svc = None →
  Forall (λ r, Guest.id r ≠ CSVUploader.nilUuid) t →
  CSVUploader.insertFault svc ≠ None ∨ ¬ NoDup (uploadIds data headers) →
  (CSVUploader.saveGuestsToSupabase svc data headers t).1 = []
  ∧ title (CSVUploader.saveGuestsToSupabase svc data headers t).2
    = "Error al guardar"
  ∧ destructive (CSVUploader.saveGuestsToSupabase svc data headers t).2
    = true.
Proof.
  intros Hdel Hids Hwhy. unfold CSVUploader.saveGuestsToSupabase.
  rewrite Hdel, (deleteWhereIdNeq_all _ _ Hids). cbn [snd].
  unfold Supabase.insertRows.
  destruct (CSVUploader.insertFault svc) as [message |] eqn:Hins; [done |].
  rewrite app_nil_l, inserted_guest_ids.
  destruct Hwhy as [? | Hdup]; [done |].
  by rewrite bool_decide_eq_false_2.
Qed.

Lemma refused_insert_leaves_the_table_empty_witness :
  (CSVUploader.saveGuestsToSupabase
     {| CSVUploader.deleteFault := None;
        CSVUploader.insertFault := Some "timeout";
        CSVUploader.gen_random_uuid := λ k, pretty k;
        CSVUploader.now := 0%Z |}
     [ana] ["Nombre"]
     [Guest.mk "uuid-0" "A1" anaA1 true (Some 2%Z) 1%Z 2%Z]).1 = [].
Proof.
  eapply proj1.
  apply (refused_insert_leaves_the_table_empty
           {| CSVUploader.deleteFault := None;
              CSVUploader.insertFault := Some "timeout";
              CSVUploader.gen_random_uuid := λ k, pretty k;
              CSVUploader.now := 0%Z |}).
  - reflexivity.
  - repeat constructor. by vm_compute.
  - by left.
Defined.

Lemma guestN_inj : Inj (=) (=) CSVUploader.guestN.
Proof.
  intros i j H. unfold CSVUploader.guestN in H.
  apply (inj (String.app "guest_")) in H.
  apply (inj pretty) in H. lia.
Qed.

Lemma uploadIds_without_id_header data headers :
  Forall (λ h, CSVUploader.isIdHeader h = false) headers →
  uploadIds data headers = CSVUploader.guestN <$> seq 0 (length data).
Proof.
  intros Hno. unfold uploadIds. rewrite <- imap_seq_0.
  apply imap_ext. intros k row _. unfold CSVUploader.guestIdOf.
  by rewrite (find_none_Forall _ _ Hno).
Qed.

(** X5. An upload without an identifier column is never refused by the
    unique index: when no header contains id, código or codigo and the two
    requests go through, every row is stored, the identifiers are guest_1
    to guest_n in the order of the rows, and the toast is the one of
    success. *)
Theorem upload_without_id_column_is_stored (svc : CSVUploader.Service)
    (data : list Row) (headers : list string) (t : Supabase.Table) :
  CSVUploader.deleteFault svc = None →
  CSVUploader.insertFault svc = None →
  Forall (λ r, Guest.id r ≠ CSVUploader.nilUuid) t →
  Forall (λ h, CSVUploader.isIdHeader h = false) headers →
  Guest.guest_id <$> (CSVUploader.saveGuestsToSupabase svc data headers t).1
  = (λ k, "guest_" +:+ pretty (k + 1)) <$> seq 0 (length data)
  ∧ Guest.guest_data
      <$> (CSVUploader.saveGuestsToSupabase svc data headers t).1
    = data
  ∧ destructive (CSVUploader.saveGuestsToSupabase svc data headers t).2
    = false.
Proof.
  intros Hdel Hins Hids Hno.
  assert (NoDup (uploadIds data headers)) as Hnd.
  { rewrite (uploadIds_without_id_header _ _ Hno).
    apply (@NoDup_fmap_2 _ _ _ guestN_inj), NoDup_seq. }
  unfold CSVUploader.saveGuestsToSupabase.
  rewrite Hdel, Hins, (deleteWhereIdNeq_all _ _ Hids). cbn [snd].
  rewrite (insertRows_empty _ _ _ _ Hnd). cbn [fst snd destructive].
  split_and!; [| | done].
  - rewrite inserted_guest_ids. by apply uploadIds_without_id_header.
  - apply list_eq. intros k. unfold CSVUploader.guestsToInsert.
    rewrite list_lookup_fmap, !list_lookup_imap. by destruct (data !! k).
Qed.

Lemma upload_without_id_column_is_stored_witness :
  Guest.guest_id
    <$> (CSVUploader.saveGuestsToSupabase
           {| CSVUploader.deleteFault := None;
              CSVUploader.insertFault := None;
              CSVUploader.gen_random_uuid := λ k, pretty k;
              CSVUploader.now := 0%Z |}
           [ana; ana] ["Nombre"] []).1
  = ["guest_1"; "guest_2"].
Proof.
  eapply proj1.
  apply (upload_without_id_column_is_stored
           {| CSVUploader.deleteFault := None;
              CSVUploader.insertFault := None;
              CSVUploader.gen_random_uuid := λ k, pretty k;
              CSVUploader.now := 0%Z |} [ana; ana] ["Nombre"] []).
  - reflexivity.
  - reflexivity.
  - constructor.
  - by repeat constructor.
Defined.

(** ** Loading and the badges *)

Lemma createdBefore_total : Total Supabase.createdBefore.
Proof. intros r1 r2. unfold Supabase.createdBefore. lia. Qed.

(** X6. A load that the store answers puts into the state the records of
    the table, all of them and each once, in ascending order of
    [created_at], and makes the set of confirmed identifiers the
    identifiers of the confirmed records; no toast is shown. A load that
    fails leaves the state as it was and shows the destructive toast. *)
Theorem load_replaces_the_state (t : Supabase.Table) (st : GuestTable.State) :
  (let result := GuestTable.loadGuestsFromSupabase None t st in
   GuestTable.supabaseGuests result.1 ≡ₚ t
   ∧ Sorted Supabase.createdBefore (GuestTable.supabaseGuests result.1)
   ∧ (∀ g, g ∈ GuestTable.confirmedGuests result.1
           ↔ ∃ r, r ∈ t ∧ Guest.guest_id r = g ∧ Guest.confirmed r = true)
   ∧ result.2 = None)
  ∧ (∀ message,
       let result := GuestTable.loadGuestsFromSupabase (Some message) t st in
       result.1 = st
       ∧ ∃ toast, result.2 = Some toast ∧ destructive toast = true).
Proof.
  split; [| intros message; simpl; eauto].
  cbv zeta. simpl. split_and!; [| | | done].
  - apply merge_sort_Permutation.
  - apply (@Sorted_merge_sort _ _ _ createdBefore_total).
  - intros g. unfold GuestTable.confirmedSet.
    rewrite elem_of_list_to_set, list_elem_of_fmap.
    setoid_rewrite list_elem_of_filter.
    setoid_rewrite merge_sort_Permutation. split.
    + intros (r & -> & Hc & Hr). by exists r.
    + intros (r & Hr & <- & Hc). by exists r.
Qed.

Lemma filter_bool_length {A} (f : A → bool) (P : A → Prop)
    `{∀ x, Decision (P x)} (l : list A) :
  (∀ x, x ∈ l → f x = bool_decide (P x)) →
  length (List.filter f l) = length (filter P l).
Proof.
  induction l as [| x l IH]; intros Hf; [done |].
  simpl. rewrite filter_cons, (Hf x) by (by left).
  case_bool_decide; rewrite decide_bool_decide;
    [rewrite bool_decide_eq_true_2 by done
    | rewrite bool_decide_eq_false_2 by done];
    simpl; rewrite IH; try done; intros y Hy; apply Hf; by right.
Qed.

Lemma List_filter_sublist {A} (f : A → bool) (l : list A) :
  List.filter f l `sublist_of` l.
Proof.
  induction l as [| x l IH]; simpl; [done |].
  destruct (f x); by constructor.
Qed.

Lemma filteredData_sublist st data searchTerm :
  GuestTable.filteredData st data searchTerm
    `sublist_of` GuestTable.currentData st data.
Proof.
  unfold GuestTable.filteredData. destruct (negb _); [done |].
  apply List_filter_sublist.
Qed.

Lemma confirmedSet_size (guests : list Guest.t) :
  UniqueIds guests →
  size (GuestTable.confirmedSet guests)
  = length (filter (λ g, Guest.confirmed g = true) guests).
Proof.
  intros Hu. unfold GuestTable.confirmedSet.
  rewrite size_list_to_set, length_fmap; [done |].
  eapply sublist_NoDup; [exact Hu |]. apply fmap_sublist, sublist_filter.
Qed.

(** X7. The badges of the grid. Filtrados never exceeds Total, and the rows
    filtered are rows of the data in their order. After a load from a table
    with pairwise distinct identifiers, Confirmados is the number of
    confirmed records, and Total is the number of records of the table as
    soon as it has one, whatever rows were parsed locally. *)
Theorem badges_count_the_table (st : GuestTable.State) (data : list Row)
    (searchTerm : string) :
  (GridTable_badges st data searchTerm).1.2
    ≤ (GridTable_badges st data searchTerm).1.1
  ∧ GuestTable.filteredData st data searchTerm
      `sublist_of` GuestTable.currentData st data
  ∧ (∀ (t : Supabase.Table),
       UniqueIds t →
       let st' := (GuestTable.loadGuestsFromSupabase None t st).1 in
       (GridTable_badges st' data searchTerm).2
       = length (filter (λ r, Guest.confirmed r = true) t)
       ∧ (t ≠ [] → (GridTable_badges st' data searchTerm).1.1 = length t)).
Proof.
  split_and!.
  - simpl. apply sublist_length, filteredData_sublist.
  - apply filteredData_sublist.
  - intros t Hu. cbv zeta. simpl. split.
    + rewrite confirmedSet_size.
      * by rewrite merge_sort_Permutation.
      * unfold UniqueIds. by rewrite merge_sort_Permutation.
    + intros Ht. unfold GuestTable.currentData. simpl.
      assert (length (merge_sort Supabase.createdBefore t) = length t) as Hl
        by (by rewrite merge_sort_Permutation).
      rewrite bool_decide_eq_true_2.
      * by rewrite length_fmap.
      * rewrite Hl. destruct t; [done | simpl; lia].
Qed.

(** ** Search *)

Lemma string_app_assoc (a b c : string) : (a +:+ b) +:+ c = a +:+ b +:+ c.
Proof.
  induction a as [| x a IH]; [done |].
  change (String x ((a +:+ b) +:+ c) = String x (a +:+ b +:+ c)).
  by rewrite IH.
Qed.

Lemma includes_trans s t u :
  Js.includes s t = true → Js.includes t u = true → Js.includes s u = true.
Proof.
  rewrite !includes_app.
  intros (a & b & ->) (c & d & ->). exists (a +:+ c), (d +:+ b).
  by rewrite !string_app_assoc.
Qed.

Lemma List_filter_weaken {A} (f g : A → bool) (l : list A) :
  (∀ x, f x = true → g x = true) →
  List.filter f l `sublist_of` List.filter g l.
Proof.
  intros Hfg. induction l as [| x l IH]; simpl; [done |].
  destruct (f x) eqn:Hf.
  - rewrite (Hfg x Hf). by constructor.
  - destruct (g x); [by apply sublist_cons | done].
Qed.

(** X8. Typing more narrows the search: if a term that is not blank
    contains another term, both in lower case, then the rows found for the
    longer term are among the rows found for the shorter one, in the same
    order. *)
Theorem longer_term_narrows (st : GuestTable.State) (data : list Row)
    (shorter longer : string) :
  Js.trim longer ≠ "" →
  Js.includes (Js.toLowerCase longer) (Js.toLowerCase shorter) = true →
  GuestTable.filteredData st data longer
    `sublist_of` GuestTable.filteredData st data shorter.
Proof.
  intros Hb Hin. rewrite (filteredData_term _ _ _ Hb).
  unfold GuestTable.filteredData.
  destruct (negb _); [apply List_filter_sublist |].
  apply List_filter_weaken. intros row.
  unfold GuestTable.rowMatches. rewrite !existsb_exists.
  intros (value & Hv & Hm). exists value. split; [done |].
  unfold GuestTable.valueMatches in *.
  destruct (Obj.toString value) as [s |]; [| done].
  by eapply includes_trans.
Qed.

Lemma longer_term_narrows_witness :
  GuestTable.filteredData GuestTable.initial [ana; anaA1] "ana a"
    `sublist_of` GuestTable.filteredData GuestTable.initial [ana; anaA1] "AN".
Proof.
  apply longer_term_narrows; [by vm_compute | reflexivity].
Defined.

(** ** The rows of the store on screen *)

Lemma filteredData_of_store st data searchTerm row :
  GuestTable.supabaseGuests st ≠ [] →
  row ∈ GuestTable.filteredData st data searchTerm →
  ∃ g, g ∈ GuestTable.supabaseGuests st ∧ row = GuestTable.displayRow g.
Proof.
  intros Hst Hrow.
  eapply elem_of_sublist in Hrow; [| apply filteredData_sublist].
  unfold GuestTable.currentData in Hrow.
  rewrite bool_decide_eq_true_2 in Hrow
    by (destruct (GuestTable.supabaseGuests st); [done | simpl; lia]).
  apply list_elem_of_fmap in Hrow as (g & -> & Hg). eauto.
Qed.

(** X9. When the state holds records of the store, all with a non-empty
    identifier, every row on screen, under any search, is the row of a
    record and is named by the identifier of that record at every position:
    the button of a row toggles the same guest whether or not a search has
    moved the row. *)
Theorem store_rows_are_named_by_their_record (st : GuestTable.State)
    (data : list Row) (searchTerm : string) :
  GuestTable.supabaseGuests st ≠ [] →
  Forall (λ g, Js.truthy (Guest.guest_id g) = true)
    (GuestTable.supabaseGuests st) →
  (∀ row, row ∈ GuestTable.filteredData st data searchTerm →
     ∃ g, g ∈ GuestTable.supabaseGuests st
          ∧ row = GuestTable.displayRow g
          ∧ ∀ index,
              GuestTable.getGuestId row index = JStr (Guest.guest_id g))
  ∧ GuestTable.shownIds st data searchTerm
    = (λ row, Obj.get row "_guest_id")
        <$> GuestTable.filteredData st data searchTerm.
Proof.
  intros Hst Hids.
  assert (∀ row, row ∈ GuestTable.filteredData st data searchTerm →
            ∃ g, g ∈ GuestTable.supabaseGuests st
                 ∧ row = GuestTable.displayRow g
                 ∧ ∀ index,
                     GuestTable.getGuestId row index
                     = JStr (Guest.guest_id g)) as Hrows.
  { intros row (g & Hg & ->)%filteredData_of_store; [| done].
    exists g. split_and!; [done | done |]. intros index.
    apply getGuestId_displayRow.
    by apply (proj1 (Forall_forall _ _) Hids). }
  split; [done |].
  unfold GuestTable.shownIds. rewrite <- imap_const.
  apply imap_ext. intros index row Hrow%list_elem_of_lookup_2.
  destruct (Hrows row Hrow) as (g & _ & -> & Hid).
  rewrite Hid. unfold const. cbv beta. unfold Obj.get.
  by rewrite (proj1 (displayRow_lookup g)).
Qed.

Lemma store_rows_are_named_by_their_record_witness :
  GuestTable.shownIds
    {| GuestTable.supabaseGuests :=
         [Guest.mk "uuid-0" "A1" anaA1 false None 1%Z 1%Z;
          Guest.mk "uuid-1" "guest_2" ana false None 1%Z 1%Z];
       GuestTable.confirmedGuests := ∅ |} [] "guest"
  = (λ row, Obj.get row "_guest_id")
      <$> GuestTable.filteredData
            {| GuestTable.supabaseGuests :=
                 [Guest.mk "uuid-0" "A1" anaA1 false None 1%Z 1%Z;
                  Guest.mk "uuid-1" "guest_2" ana false None 1%Z 1%Z];
               GuestTable.confirmedGuests := ∅ |} [] "guest".
Proof.
  eapply proj2. apply store_rows_are_named_by_their_record.
  - done.
  - by repeat constructor.
Defined.

(** X10. The button "Sin confirmar" of the accordion. After a load from a
    table that has records, with non-empty and pairwise distinct
    identifiers, and with no search term, its number is the number of
    records of the table that are not confirmed. *)
Theorem sinConfirmar_counts_the_unconfirmed (t : Supabase.Table)
    (st : GuestTable.State) (data : list Row) :
  t ≠ [] →
  UniqueIds t →
  Forall (λ g, Js.truthy (Guest.guest_id g) = true) t →
  AccordionTable_sinConfirmar
    (GuestTable.loadGuestsFromSupabase None t st).1 data ""
  = length (filter (λ r, Guest.confirmed r = false) t).
Proof.
  intros Ht Hu Hids. unfold AccordionTable_sinConfirmar.
  rewrite filteredData_blank by done.
  set (sorted := merge_sort Supabase.createdBefore t).
  assert (sorted ≡ₚ t) as Hperm by apply merge_sort_Permutation.
  unfold GuestTable.currentData. simpl. fold sorted.
  rewrite bool_decide_eq_true_2
    by (rewrite Hperm; destruct t; [done | simpl; lia]).
  rewrite <- (filter_Permutation _ _ _ Hperm).
  assert (UniqueIds sorted) as Hu' by (unfold UniqueIds; by rewrite Hperm).
  assert (Forall (λ g, Js.truthy (Guest.guest_id g) = true) sorted) as Hids'
    by (by rewrite Hperm).
  clearbody sorted. clear Hperm Ht Hu Hids t.
  transitivity
    (length (List.filter
               (λ g, negb (GuestTable.has (GuestTable.confirmedSet sorted)
                             (GuestTable.getGuestId
                                (GuestTable.displayRow g) 0)))
               sorted)).
  { generalize (GuestTable.confirmedSet sorted). intros X.
    clear. induction sorted as [| g l IH]; [done |].
    rewrite fmap_cons. simpl. destruct (negb _); simpl; by rewrite IH. }
  apply filter_bool_length. intros g Hg.
  rewrite getGuestId_displayRow
    by (by apply (proj1 (Forall_forall _ _) Hids')).
  simpl. unfold GuestTable.confirmedSet.
  destruct (Guest.confirmed g) eqn:Hc.
  - rewrite bool_decide_eq_true_2, bool_decide_eq_false_2; [done | done |].
    apply elem_of_list_to_set, list_elem_of_fmap. exists g.
    split; [done |]. by apply list_elem_of_filter.
  - rewrite bool_decide_eq_false_2, bool_decide_eq_true_2; [done | done |].
    intros (g' & Hid & [Hc' Hg']%list_elem_of_filter)%elem_of_list_to_set
      %list_elem_of_fmap.
    rewrite (fmap_unique _ _ _ _ Hu' Hg Hg' Hid) in Hc. congruence.
Qed.

Lemma sinConfirmar_counts_the_unconfirmed_witness :
  AccordionTable_sinConfirmar
    (GuestTable.loadGuestsFromSupabase None
       [Guest.mk "uuid-0" "A1" anaA1 true (Some 2%Z) 1%Z 2%Z;
        Guest.mk "uuid-1" "guest_2" ana false None 1%Z 1%Z]
       GuestTable.initial).1 [] ""
  = 1.
Proof.
  apply (sinConfirmar_counts_the_unconfirmed
           [Guest.mk "uuid-0" "A1" anaA1 true (Some 2%Z) 1%Z 2%Z;
            Guest.mk "uuid-1" "guest_2" ana false None 1%Z 1%Z]).
  - done.
  - by apply (bool_decide_unpack _).
  - by repeat constructor.
Defined.

(** ** The order of the columns *)

Lemma pushUnlessIncluded_elem' cond acc h x :
  x ∈ pushUnlessIncluded cond acc h ↔ x ∈ acc ∨ (x = h ∧ cond = true).
Proof.
  rewrite pushUnlessIncluded_elem. split; [tauto |].
  intros [? | [-> ?]]; [by left |].
  destruct (decide (h ∈ acc)); [by left | by right].
Qed.

Lemma pushUnlessIncluded_prefix cond acc h :
  acc `prefix_of` pushUnlessIncluded cond acc h.
Proof.
  unfold pushUnlessIncluded. destruct (_ && _); [| done].
  by apply prefix_app_r.
Qed.

Lemma fold_prefix {A} (f : list string → A → list string) (l : list A) acc :
  (∀ acc' a, acc' `prefix_of` f acc' a) → acc `prefix_of` fold_left f l acc.
Proof.
  intros Hf. revert acc. induction l as [| a l IH]; intros acc; [done |].
  simpl. etransitivity; [apply (Hf acc a) | apply IH].
Qed.

Lemma exactPass_prefix desired headers acc :
  acc `prefix_of` exactPass desired headers acc.
Proof.
  apply fold_prefix. intros acc' d. destruct (find _ _); [| done].
  apply pushUnlessIncluded_prefix.
Qed.

Lemma partialPass_prefix partial desired headers acc :
  acc `prefix_of` partialPass partial desired headers acc.
Proof.
  apply fold_prefix. intros acc' d. apply fold_prefix. intros acc'' h.
  apply pushUnlessIncluded_prefix.
Qed.

Lemma restPass_prefix headers acc : acc `prefix_of` restPass headers acc.
Proof. apply fold_prefix. intros acc' h. apply pushUnlessIncluded_prefix. Qed.

Lemma exactPass_elem desired headers acc x :
  x ∈ exactPass desired headers acc
  ↔ x ∈ acc ∨ ∃ d, d ∈ desired ∧ ExactFor headers d x.
Proof.
  unfold exactPass. revert acc.
  induction desired as [| d ds IH]; intros acc; simpl.
  - split; [by left | intros [? | (d & []%elem_of_nil & _)]; done].
  - rewrite IH. clear IH. unfold ExactFor.
    destruct (find _ headers) as [exact |] eqn:Hfind.
    + rewrite pushUnlessIncluded_elem'. split.
      * intros [[? | [-> Ht]] | (d' & Hd' & H)]; [by left | |].
        -- right. exists d. split; [by left |]. split; [done |].
           by destruct exact.
        -- right. exists d'. split; [by right | done].
      * intros [? | (d' & [-> | Hd']%elem_of_cons & Hf & Hne)];
          [by left; left | | right; by exists d'].
        left. right. rewrite Hfind in Hf. injection Hf as ->.
        split; [done | by destruct x].
    + split.
      * intros [? | (d' & Hd' & H)]; [by left |].
        right. exists d'. split; [by right | done].
      * intros [? | (d' & [-> | Hd']%elem_of_cons & Hf & Hne)];
          [by left | | right; by exists d'].
        by rewrite Hfind in Hf.
Qed.

Lemma partialPass_elem partial desired headers acc x :
  x ∈ partialPass partial desired headers acc
  ↔ x ∈ acc ∨ (x ∈ headers ∧ ∃ d, d ∈ desired ∧ partial d x = true).
Proof.
  assert (∀ d l acc',
            x ∈ fold_left
                  (λ acc'' h, pushUnlessIncluded (partial d h) acc'' h) l acc'
            ↔ x ∈ acc' ∨ (x ∈ l ∧ partial d x = true)) as Hinner.
  { intros d l. induction l as [| h l IH]; intros acc'; simpl.
    - split; [by left | intros [? | [[]%elem_of_nil _]]; done].
    - rewrite IH, pushUnlessIncluded_elem', elem_of_cons. split.
      + intros [[? | [-> ?]] | [? ?]]; auto.
      + intros [? | [[-> | ?] ?]]; auto. }
  unfold partialPass. revert acc.
  induction desired as [| d ds IH]; intros acc; simpl.
  - split; [by left | intros [? | (_ & d & []%elem_of_nil & _)]; done].
  - rewrite IH, Hinner. clear. split.
    + intros [[? | [? ?]] | (? & d' & ? & ?)]; [by left | |].
      * right. split; [done |]. exists d. split; [by left | done].
      * right. split; [done |]. exists d'. split; [by right | done].
    + intros [? | (? & d' & [-> | ?]%elem_of_cons & ?)];
        [by left; left | by left; right |].
      right. split; [done |]. by exists d'.
Qed.

Lemma filter_ext_elem {A} (P Q : A → Prop) `{∀ x, Decision (P x)}
    `{∀ x, Decision (Q x)} (l : list A) :
  (∀ x, x ∈ l → P x ↔ Q x) → filter P l = filter Q l.
Proof.
  induction l as [| x l IH]; intros HPQ; [done |].
  rewrite !filter_cons.
  assert (P x ↔ Q x) as Hx by (apply HPQ; by left).
  rewrite IH by (intros y Hy; apply HPQ; by right).
  destruct (decide (P x)), (decide (Q x)); tauto.
Qed.

Lemma filter_all {A} (P : A → Prop) `{∀ x, Decision (P x)} (l : list A) :
  (∀ x, x ∈ l → P x) → filter P l = l.
Proof.
  induction l as [| x l IH]; intros HP; [done |].
  rewrite filter_cons, decide_True by (apply HP; by left).
  rewrite IH; [done |]. intros y Hy. apply HP. by right.
Qed.

Lemma restPass_file_order headers acc :
  NoDup headers →
  restPass headers acc = acc ++ filter (λ h, h ∉ acc) headers.
Proof.
  unfold restPass. revert acc.
  induction headers as [| h l IH]; intros acc Hnd; simpl.
  - by rewrite filter_nil, app_nil_r.
  - apply NoDup_cons in Hnd as [Hh Hl]. rewrite IH by done.
    rewrite filter_cons. unfold pushUnlessIncluded, Js.arrayIncludes.
    case_bool_decide as Hin; simpl.
    + rewrite decide_False by tauto. done.
    + rewrite decide_True by done. rewrite <- app_assoc. simpl.
      do 2 f_equal. apply filter_ext_elem. intros x Hx.
      rewrite not_elem_of_app, list_elem_of_singleton.
      split; [tauto |]. intros Hxa. split; [done |]. by intros ->.
Qed.

Lemma ordered_as_placed_then_rest partial desired headers :
  NoDup headers →
  ∃ placed,
    restPass headers
      (partialPass partial desired headers (exactPass desired headers []))
    = placed ++ filter (λ h, h ∉ placed) headers
    ∧ ∀ h, h ∈ placed ↔ Preferred partial desired headers h.
Proof.
  intros Hnd.
  exists (partialPass partial desired headers (exactPass desired headers [])).
  split; [by apply restPass_file_order |].
  intros h. rewrite partialPass_elem, exactPass_elem. unfold Preferred.
  split.
  - intros [[[]%elem_of_nil | (d & Hd & Hex)] | (Hh & d & Hd & Hp)].
    + split; [| by exists d; auto]. destruct Hex as [Hf _].
      apply find_some in Hf as [Hin _]. by apply list_elem_of_In.
    + split; [done |]. exists d. auto.
  - intros (Hh & d & Hd & [Hex | Hp]).
    + left. right. by exists d.
    + right. split; [done |]. by exists d.
Qed.

(** X11. The order of the columns, in both versions of the table, for a
    list of distinct headers: first the headers placed for a preferred
    name, that is, the headers taken by the exact pass or matched by the
    partial test of that version; then all the other headers, in the order
    of the file. In particular, when no header is placed for any preferred
    name, the order of the file is kept. *)
Theorem unmatched_headers_keep_file_order (desired headers : list string) :
  NoDup headers →
  (∃ placed,
     GridTable.getOrderedHeadersFor desired headers
     = placed ++ filter (λ h, h ∉ placed) headers
     ∧ ∀ h, h ∈ placed
            ↔ Preferred GridTable.partialMatch desired headers h)
  ∧ (∃ placed,
       AccordionTable.getOrderedHeadersFor desired headers
       = placed ++ filter (λ h, h ∉ placed) headers
       ∧ ∀ h, h ∈ placed
              ↔ Preferred (AccordionTable.partialMatch desired)
                  desired headers h)
  ∧ ((∀ h, ¬ Preferred GridTable.partialMatch desired headers h) →
     GridTable.getOrderedHeadersFor desired headers = headers).
Proof.
  intros Hnd. split_and!.
  - by apply ordered_as_placed_then_rest.
  - by apply ordered_as_placed_then_rest.
  - intros Hnone.
    destruct (ordered_as_placed_then_rest GridTable.partialMatch desired
                headers Hnd) as (placed & Heq & Hplaced).
    unfold GridTable.getOrderedHeadersFor. rewrite Heq.
    destruct placed as [| h placed].
    + simpl. apply filter_all. intros x _. apply not_elem_of_nil.
    + exfalso. apply (Hnone h), Hplaced. by left.
Qed.

Lemma unmatched_headers_keep_file_order_witness :
  ∃ placed,
    GridTable.getOrderedHeadersFor desiredOrder ["Email"; "dni"; "Talle"]
    = placed ++ filter (λ h, h ∉ placed) ["Email"; "dni"; "Talle"].
Proof.
  destruct (unmatched_headers_keep_file_order desiredOrder
              ["Email"; "dni"; "Talle"]) as [(placed & Heq & _) _].
  - by apply (bool_decide_unpack _).
  - by exists placed.
Defined.

Lemma first_exact_is_head partial d ds headers h :
  ExactFor headers d h →
  head (restPass headers
          (partialPass partial (d :: ds) headers
             (exactPass (d :: ds) headers [])))
  = Some h.
Proof.
  intros [Hfind Hne].
  assert ([h] `prefix_of`
            restPass headers
              (partialPass partial (d :: ds) headers
                 (exactPass (d :: ds) headers []))) as [rest ->]; [| done].
  etransitivity; [| apply restPass_prefix].
  etransitivity; [| apply partialPass_prefix].
  unfold exactPass. simpl. rewrite Hfind.
  replace (pushUnlessIncluded (Js.truthy h) [] h) with [h]
    by (by destruct h).
  apply (exactPass_prefix ds headers [h]).
Qed.

(** X12. The first preferred name leads. When some header equals the first
    preferred name up to case and surrounding white space, the first such
    header is the first column, in both versions of the table; with the
    preferred order of the program this is the column DNI. *)
Theorem first_preferred_name_leads (d : string) (ds headers : list string)
    (h : string) :
  ExactFor headers d h →
  head (GridTable.getOrderedHeadersFor (d :: ds) headers) = Some h
  ∧ head (AccordionTable.getOrderedHeadersFor (d :: ds) headers) = Some h
  ∧ (d = "DNI" →
     head (GridTable.getOrderedHeaders headers) = Some h
     ∧ head (AccordionTable.getOrderedHeaders headers) = Some h).
Proof.
  intros Hex. split_and!.
  - by apply first_exact_is_head.
  - by apply first_exact_is_head.
  - intros ->. split.
    + by apply (first_exact_is_head GridTable.partialMatch "DNI").
    + by apply (first_exact_is_head
                  (AccordionTable.partialMatch desiredOrder) "DNI").
Qed.

Lemma first_preferred_name_leads_witness :
  head (GridTable.getOrderedHeaders ["Nombre"; "Apellido"; " dni "; "DNI"])
  = Some " dni ".
Proof.
  destruct (first_preferred_name_leads "DNI" (tail desiredOrder)
              ["Nombre"; "Apellido"; " dni "; "DNI"] " dni ")
    as (_ & _ & H).
  - split; [by vm_compute | done].
  - by apply H.
Defined.

(** ** More facts about the string functions *)

Lemma string_app_nil_r (s : string) : s +:+ "" = s.
Proof.
  induction s as [| c s IH]; [done |].
  change (String c (s +:+ "") = String c s). by rewrite IH.
Qed.

Lemma string_app_length (a b : string) :
  String.length (a +:+ b) = String.length a + String.length b.
Proof.
  induction a as [| c a IH]; [done |].
  change (S (String.length (a +:+ b)) = S (String.length a + String.length b)).
  by rewrite IH.
Qed.

Lemma rev_app_acc (s acc : string) :
  String.rev_app s acc = String.rev s +:+ acc.
Proof.
  unfold String.rev. revert acc.
  induction s as [| c s IH]; intros acc; [done |].
  simpl. rewrite (IH (String c acc)), (IH (String c "")).
  by rewrite string_app_assoc.
Qed.

Lemma rev_cons c (s : string) :
  String.rev (String c s) = String.rev s +:+ String c "".
Proof. unfold String.rev at 1. simpl. apply rev_app_acc. Qed.

Lemma rev_app (a b : string) :
  String.rev (a +:+ b) = String.rev b +:+ String.rev a.
Proof.
  induction a as [| c a IH].
  - change (String.rev b = String.rev b +:+ ""). by rewrite string_app_nil_r.
  - change (String.rev (String c (a +:+ b))
            = String.rev b +:+ String.rev (String c a)).
    by rewrite !rev_cons, IH, string_app_assoc.
Qed.

Lemma rev_involutive (s : string) : String.rev (String.rev s) = s.
Proof.
  induction s as [| c s IH]; [done |].
  by rewrite rev_cons, rev_app, IH.
Qed.

Lemma rev_length (s : string) : String.length (String.rev s) = String.length s.
Proof.
  induction s as [| c s IH]; [done |].
  rewrite rev_cons, string_app_length, IH. simpl. lia.
Qed.

Lemma endsWith_app s suffix :
  CSVUploader.endsWith s suffix = true ↔ ∃ pre, s = pre +:+ suffix.
Proof.
  induction s as [| c s IH]; cbn [CSVUploader.endsWith];
    rewrite orb_true_iff, bool_decide_eq_true.
  - split.
    + intros [<- | ?]; [by exists "" | done].
    + intros [pre H]. left. destruct pre; [done | discriminate].
  - rewrite IH. split.
    + intros [<- | [pre ->]]; [by exists "" | by exists (String c pre)].
    + intros [[| c' pre] H]; [by left |].
      right. exists pre.
      change (String c s = String c' (pre +:+ suffix)) in H. congruence.
Qed.

Lemma stripPrefix_app p s r :
  Js.stripPrefix p s = Some r ↔ s = p +:+ r.
Proof.
  revert s. induction p as [| a p IH]; intros s; simpl.
  - change ("" +:+ r) with r. split; congruence.
  - destruct s as [| b s].
    + split; [done | discriminate].
    + change (String a p +:+ r) with (String a (p +:+ r)).
      destruct (Ascii.eqb a b) eqn:Hab.
      * apply Ascii.eqb_eq in Hab as ->. rewrite IH.
        split; congruence.
      * apply Ascii.eqb_neq in Hab. split; [done | congruence].
Qed.

Lemma firstSome_None {A B} (f : A → option B) (l : list A) :
  Js.firstSome f l = None ↔ ∀ x, x ∈ l → f x = None.
Proof.
  induction l as [| x l IH]; simpl.
  - split; [intros _ x []%elem_of_nil | done].
  - destruct (f x) eqn:Hx.
    + split; [done |]. intros H. specialize (H x). rewrite Hx in H.
      apply H. by left.
    + rewrite IH. split.
      * intros H y [-> | Hy]%elem_of_cons; auto.
      * intros H y Hy. apply H. by right.
Qed.

Lemma firstSome_Some {A B} (f : A → option B) (l : list A) y :
  Js.firstSome f l = Some y → ∃ x, x ∈ l ∧ f x = Some y.
Proof.
  induction l as [| x l IH]; simpl; [done |].
  destruct (f x) eqn:Hx.
  - intros [= <-]. exists x. split; [by left | done].
  - intros (x' & Hin & Hf)%IH. exists x'. split; [by right | done].
Qed.

Lemma dropWhite_clean_id ws fuel s :
  headClean ws s → Js.dropWhite ws fuel s = s.
Proof.
  intros Hc. destruct fuel; simpl; [done |].
  by rewrite (proj2 (firstSome_None _ _) Hc).
Qed.

Lemma dropWhite_clean ws fuel s :
  (∀ w, w ∈ ws → w ≠ "") → String.length s ≤ fuel →
  headClean ws (Js.dropWhite ws fuel s).
Proof.
  intros Hws. revert s. induction fuel as [| fuel IH]; intros s Hlen; simpl.
  - destruct s; [| simpl in Hlen; lia].
    intros w Hw. specialize (Hws w Hw). by destruct w.
  - destruct (Js.firstSome _ ws) as [s' |] eqn:Hf.
    + apply IH. apply firstSome_Some in Hf as (w & Hw & ->%stripPrefix_app).
      specialize (Hws w Hw). rewrite string_app_length in Hlen.
      destruct w; [done | simpl in Hlen; lia].
    + exact (proj1 (firstSome_None _ _) Hf).
Qed.

Lemma dropWhite_suffix ws fuel s :
  ∃ pre, s = pre +:+ Js.dropWhite ws fuel s.
Proof.
  revert s. induction fuel as [| fuel IH]; intros s; simpl; [by exists "" |].
  destruct (Js.firstSome _ ws) as [s' |] eqn:Hf; [| by exists ""].
  apply firstSome_Some in Hf as (w & _ & ->%stripPrefix_app).
  destruct (IH s') as [pre Hpre]. exists (w +:+ pre).
  by rewrite string_app_assoc, <- Hpre.
Qed.

Lemma whiteSpace_not_empty w : w ∈ Js.whiteSpace → w ≠ "".
Proof.
  revert w. apply Forall_forall. by apply (bool_decide_unpack _).
Qed.

Lemma whiteSpace_rev_not_empty w : w ∈ String.rev <$> Js.whiteSpace → w ≠ "".
Proof.
  revert w. apply Forall_forall. by apply (bool_decide_unpack _).
Qed.

Lemma headClean_prefix ws (u v rest : string) :
  u = v +:+ rest → headClean ws u → v ≠ "" → headClean ws v.
Proof.
  intros -> Hu Hv w Hw.
  destruct (Js.stripPrefix w v) as [x |] eqn:Hx; [| done].
  apply stripPrefix_app in Hx as ->.
  specialize (Hu w Hw). rewrite string_app_assoc in Hu.
  by rewrite (proj2 (stripPrefix_app _ _ _) eq_refl) in Hu.
Qed.

(** Trimming is idempotent: a trimmed string has no white space left at
    either end, so trimming it again returns it. *)
Lemma trim_idempotent (s : string) : Js.trim (Js.trim s) = Js.trim s.
Proof.
  unfold Js.trim.
  set (u := Js.trimStart s).
  assert (headClean Js.whiteSpace u) as Hu
    by (apply dropWhite_clean; [apply whiteSpace_not_empty | done]).
  unfold Js.trimEnd at 2.
  set (d := Js.dropWhite (map String.rev Js.whiteSpace) (String.length u)
              (String.rev u)).
  assert (headClean (map String.rev Js.whiteSpace) d) as Hd.
  { apply dropWhite_clean; [apply whiteSpace_rev_not_empty |].
    by rewrite rev_length. }
  destruct (dropWhite_suffix (map String.rev Js.whiteSpace)
              (String.length u) (String.rev u)) as [pre Hpre].
  fold d in Hpre.
  assert (u = String.rev d +:+ String.rev pre) as Hu'.
  { by rewrite <- rev_app, <- Hpre, rev_involutive. }
  assert (Js.trimStart (String.rev d) = String.rev d) as ->.
  { destruct (String.rev d) as [| c v] eqn:Hv; [done |].
    apply dropWhite_clean_id.
    by apply (headClean_prefix _ u _ (String.rev pre)). }
  unfold Js.trimEnd. rewrite rev_involutive.
  by rewrite (dropWhite_clean_id _ _ _ Hd).
Qed.

Lemma trim_empty : Js.trim "" = "".
Proof. done. Qed.

(** ** The upload *)

Ltac upload_cases :=
  unfold CSVUploader.handleFileUpload, CSVUploader.processCSVFile,
    CSVUploader.processExcelFile, CSVUploader.stop;
  repeat match goal with
         | |- context [CSVUploader.papa ?f] =>
             destruct (CSVUploader.papa f) as [? | ?]
         | |- context [CSVUploader.excel ?f] =>
             destruct (CSVUploader.excel f) as [| ? | [? |]]
         | |- context [bool_decide ?P] =>
             destruct (bool_decide P) eqn:?
         | |- context [CSVUploader.endsWith ?s ?x] =>
             destruct (CSVUploader.endsWith s x) eqn:?
         end;
  simpl.

(** X13. Every upload settles. After [handleFileUpload] on a file the
    uploader is not loading and shows the name of the file, and exactly one
    of two things has happened: either an error message is set, and then
    the table is as before, no toast is shown, nothing is handed to the
    page and the panel stays as it was; or no message is set, and then
    rows were handed to the page, a toast of the save is shown and the
    panel is closed. *)
Theorem upload_settles (svc : CSVUploader.Service) (f : CSVUploader.File)
    (t : Supabase.Table) (st : CSVUploader.UploaderState) :
  let o := CSVUploader.handleFileUpload svc (Some f) t st in
  CSVUploader.isLoading (CSVUploader.uploader o) = false
  ∧ CSVUploader.fileName (CSVUploader.uploader o) = CSVUploader.name f
  ∧ (is_Some (CSVUploader.error (CSVUploader.uploader o))
     ∧ CSVUploader.guests o = t
     ∧ CSVUploader.shown o = None
     ∧ CSVUploader.onDataLoad o = None
     ∧ CSVUploader.isOpen (CSVUploader.uploader o) = CSVUploader.isOpen st
     ∨ CSVUploader.error (CSVUploader.uploader o) = None
       ∧ is_Some (CSVUploader.onDataLoad o)
       ∧ is_Some (CSVUploader.shown o)
       ∧ CSVUploader.isOpen (CSVUploader.uploader o) = false).
Proof.
  cbv zeta. upload_cases;
    (split_and!; [done | done |]);
    first [ left; split_and!; by eauto | right; split_and!; by eauto ].
Qed.

(** X14. What the page receives depends on the file alone: the rows and
    headers handed to [onDataLoad], and the error message of the uploader,
    are the same whatever the table holds and whatever the delete and the
    insert meet. A save that fails does not keep the rows from the page. *)
Theorem page_payload_depends_on_the_file_only
    (svc svc' : CSVUploader.Service) (f : option CSVUploader.File)
    (t t' : Supabase.Table) (st st' : CSVUploader.UploaderState) :
  CSVUploader.onDataLoad (CSVUploader.handleFileUpload svc f t st)
  = CSVUploader.onDataLoad (CSVUploader.handleFileUpload svc' f t' st')
  ∧ (is_Some f →
     CSVUploader.error
       (CSVUploader.uploader (CSVUploader.handleFileUpload svc f t st))
     = CSVUploader.error
         (CSVUploader.uploader (CSVUploader.handleFileUpload svc' f t' st'))).
Proof.
  destruct f as [f |]; [| split; [done | by intros [? ?]]].
  split; [| intros _]; upload_cases; done.
Qed.

(** X15. The store is written only through a save of the rows handed to
    the page: when [handleFileUpload] calls [onDataLoad] with rows and
    headers, neither list is empty, and the table and the toast are those
    of [saveGuestsToSupabase] on these rows and headers; when it does not,
    the table is as before. *)
Theorem upload_saves_what_it_loads (svc : CSVUploader.Service)
    (f : option CSVUploader.File) (t : Supabase.Table)
    (st : CSVUploader.UploaderState) :
  let o := CSVUploader.handleFileUpload svc f t st in
  match CSVUploader.onDataLoad o with
  | Some (rows, headers) =>
      rows ≠ [] ∧ headers ≠ []
      ∧ CSVUploader.guests o
        = (CSVUploader.saveGuestsToSupabase svc rows headers t).1
      ∧ CSVUploader.shown o
        = Some (CSVUploader.saveGuestsToSupabase svc rows headers t).2
  | None => CSVUploader.guests o = t ∧ CSVUploader.shown o = None
  end.
Proof.
  cbv zeta. destruct f as [f |]; [| done].
  upload_cases; try done;
    repeat match goal with
           | H : bool_decide _ = false |- _ =>
               apply bool_decide_eq_false in H
           end;
    split_and!; try done; intros Heq; rewrite Heq in *; simpl in *; done.
Qed.

(** ** The rows of a CSV file *)

Lemma hasValue_spec value :
  CSVUploader.hasValue value = true
  ↔ value ≠ JNull ∧ value ≠ JUndefined ∧ value ≠ JStr "".
Proof.
  destruct value as [| | b | n | s]; simpl.
  - split; [done | tauto].
  - split; [done | tauto].
  - by split.
  - by split.
  - destruct s; simpl; [split; [done | tauto] | by split].
Qed.

Lemma List_filter_idem {A} (f : A → bool) (l : list A) :
  List.filter f (List.filter f l) = List.filter f l.
Proof.
  induction l as [| x l IH]; [done |]. simpl.
  destruct (f x) eqn:Hx; [| done]. simpl. by rewrite Hx, IH.
Qed.

(** X16. The rows kept from a CSV file are the rows that have a value: a
    row is kept exactly when some cell of it is not null, not undefined
    and not the empty string (the number 0 and the boolean false count as
    values); the rows kept stay in the order of the file, and filtering
    them again changes nothing. *)
Theorem validData_keeps_rows_with_a_value (rows : list Row) :
  CSVUploader.validData rows `sublist_of` rows
  ∧ (∀ row,
       row ∈ CSVUploader.validData rows
       ↔ row ∈ rows
         ∧ ∃ column value,
             row !! column = Some value
             ∧ value ≠ JNull ∧ value ≠ JUndefined ∧ value ≠ JStr "")
  ∧ CSVUploader.validData (CSVUploader.validData rows)
    = CSVUploader.validData rows.
Proof.
  unfold CSVUploader.validData. split_and!.
  - apply List_filter_sublist.
  - intros row. rewrite list_elem_of_In, filter_In, <- list_elem_of_In.
    rewrite existsb_exists. split.
    + intros [Hrow (value & [column Hc]%list_elem_of_In%values_lookup & Hv)].
      split; [done |]. exists column, value. split; [done |].
      by apply hasValue_spec.
    + intros [Hrow (column & value & Hc & Hv)]. split; [done |].
      exists value. split; [| by apply hasValue_spec].
      apply list_elem_of_In, values_lookup. by exists column.
  - apply List_filter_idem.
Qed.

(** ** The rows of an Excel sheet *)

Lemma List_filter_elem {A} (f : A → bool) (l : list A) x :
  x ∈ List.filter f l ↔ x ∈ l ∧ f x = true.
Proof. by rewrite list_elem_of_In, filter_In, <- list_elem_of_In. Qed.

Lemma truthy_true s : Js.truthy s = true ↔ s ≠ "".
Proof. destruct s; by split. Qed.

Lemma List_filter_all {A} (f : A → bool) (l : list A) :
  (∀ x, x ∈ l → f x = true) → List.filter f l = l.
Proof.
  induction l as [| x l IH]; intros Hf; [done |]. simpl.
  rewrite (Hf x) by (by left). rewrite IH; [done |].
  intros y Hy. apply Hf. by right.
Qed.

(** X17. The headers read from the first row of a sheet: every header is
    the trimmed text of a cell of that row, is not empty and has no white
    space left at its ends; the headers keep the order of the row; and
    reading the headers again from the headers changes nothing. *)
Theorem excelHeaders_are_trimmed (firstRow : list JsValue) :
  (∀ h, h ∈ CSVUploader.excelHeaders firstRow →
     h ≠ "" ∧ Js.trim h = h
     ∧ ∃ cell, cell ∈ firstRow ∧ h = Js.trim (CSVUploader.JsString cell))
  ∧ CSVUploader.excelHeaders firstRow
      `sublist_of` (λ cell, Js.trim (CSVUploader.JsString cell)) <$> firstRow
  ∧ CSVUploader.excelHeaders (JStr <$> CSVUploader.excelHeaders firstRow)
    = CSVUploader.excelHeaders firstRow.
Proof.
  assert (∀ h, h ∈ CSVUploader.excelHeaders firstRow →
            h ≠ "" ∧ Js.trim h = h
            ∧ ∃ cell, cell ∈ firstRow
                      ∧ h = Js.trim (CSVUploader.JsString cell)) as Hh.
  { intros h [(cell & -> & Hc)%list_elem_of_fmap Ht%truthy_true]
      %List_filter_elem.
    split_and!; [done | apply trim_idempotent | by exists cell]. }
  split_and!; [done | apply List_filter_sublist |].
  unfold CSVUploader.excelHeaders at 1. rewrite <- list_fmap_compose.
  rewrite (list_fmap_ext _ id (CSVUploader.excelHeaders firstRow)).
  - rewrite list_fmap_id. apply List_filter_all.
    intros h Hin. apply truthy_true. by apply Hh.
  - intros _ h Hin%list_elem_of_lookup_2. simpl. by apply Hh.
Qed.

Lemma fillObject_other raw index headers (obj : Row) h :
  h ∉ headers →
  CSVUploader.fillObject raw index headers obj !! h = obj !! h.
Proof.
  revert index obj. induction headers as [| x l IH]; intros index obj Hh;
    simpl; [done |].
  apply not_elem_of_cons in Hh as [Hx Hl].
  rewrite IH by done. by rewrite lookup_insert_ne.
Qed.

Lemma fillObject_last raw index headers (obj : Row) k h :
  headers !! k = Some h → h ∉ drop (S k) headers →
  CSVUploader.fillObject raw index headers obj !! h
  = Some (CSVUploader.cellOr raw (index + k)).
Proof.
  revert index obj k. induction headers as [| x l IH];
    intros index obj k Hk Hlast; [done |].
  destruct k as [| k]; simpl in *.
  - injection Hk as ->. rewrite drop_0 in Hlast.
    rewrite fillObject_other by done.
    by rewrite lookup_insert_eq, Nat.add_0_r.
  - rewrite (IH (S index) _ k Hk Hlast). do 2 f_equal. lia.
Qed.

Lemma fillObject_dom raw index headers (obj : Row) :
  dom (CSVUploader.fillObject raw index headers obj)
  = dom obj ∪ list_to_set headers.
Proof.
  revert index obj. induction headers as [| x l IH]; intros index obj; simpl.
  - by rewrite (right_id_L ∅ (∪)).
  - rewrite IH, dom_insert_L.
    by rewrite (comm_L (∪) {[x]}), <- (assoc_L (∪)).
Qed.

Lemma fillObject_values raw index headers (obj : Row) column value :
  CSVUploader.fillObject raw index headers obj !! column = Some value →
  obj !! column = Some value
  ∨ Obj.truthy value = true ∨ value = JStr "".
Proof.
  revert index obj. induction headers as [| x l IH]; intros index obj; simpl;
    [by left |].
  intros [H | H]%IH; [| by right].
  destruct (decide (x = column)) as [-> | Hne].
  - rewrite lookup_insert_eq in H. injection H as <-. right.
    unfold CSVUploader.cellOr. destruct (raw !! index) as [cell |]; [| by right].
    destruct (Obj.truthy cell) eqn:Hc; [by left | by right].
  - rewrite lookup_insert_ne in H by done. by left.
Qed.

(** X18. The rows built from a sheet. There are no more rows than lines
    below the first; every row comes from a line with a cell that is not
    blank, has exactly the headers as its keys, holds under each header the
    cell of the line at the position of that header among the headers kept
    (for a header kept twice, at its last position), and every value is
    either truthy or the empty string: a cell that is missing, 0, false or
    null is stored as the empty string. *)
Theorem excelRows_follow_the_headers (headers : list string)
    (jsonData : list (list JsValue)) :
  length (CSVUploader.excelRows headers jsonData) ≤ length jsonData - 1
  ∧ ∀ row, row ∈ CSVUploader.excelRows headers jsonData →
      ∃ raw,
        raw ∈ drop 1 jsonData
        ∧ CSVUploader.nonEmptyRow raw = true
        ∧ dom row = list_to_set headers
        ∧ (∀ k h, headers !! k = Some h → h ∉ drop (S k) headers →
             row !! h = Some (CSVUploader.cellOr raw k))
        ∧ (∀ column value, row !! column = Some value →
             Obj.truthy value = true ∨ value = JStr "").
Proof.
  unfold CSVUploader.excelRows. split.
  - rewrite length_fmap.
    etransitivity; [apply sublist_length, List_filter_sublist |].
    by rewrite length_drop.
  - intros row (raw & -> & [Hraw Hne]%List_filter_elem)%list_elem_of_fmap.
    exists raw. split_and!; [done | done | | |].
    + by rewrite fillObject_dom, dom_empty_L, (left_id_L ∅ (∪)).
    + intros k h Hk Hlast. by rewrite (fillObject_last _ _ _ _ k h).
    + intros column value [H | H]%fillObject_values; [done | done].
Qed.

(** A header cell that is blank is dropped from the headers, and the cells
    of the lines are then read one position to the left: under Nombre the
    row holds the cell of the column before it. *)
Example excel_blank_header_shifts_cells :
  let jsonData := [[JStr ""; JStr "Nombre"]; [JStr "x"; JStr "Ana"]] in
  CSVUploader.excelHeaders [JStr ""; JStr "Nombre"] = ["Nombre"]
  ∧ CSVUploader.excelRows ["Nombre"] jsonData
    = [list_to_map [("Nombre", JStr "x")]].
Proof. by vm_compute. Qed.

(** ** The extension of the file *)


Lemma string_app_cons c (a b : string) :
  String c a +:+ b = String c (a +:+ b).
Proof. done. Qed.

Lemma toLowerCase_cons c rest :
  Js.toLowerCase (String c rest)
  = if Js.between 65 90 c then String (Js.shift32 c) (Js.toLowerCase rest)
    else if (Js.code c =? 195)%nat then
      match rest with
      | String d rest' =>
          if Js.between 128 158 d && negb (Js.code d =? 151)%nat
          then String c (String (Js.shift32 d) (Js.toLowerCase rest'))
          else String c (Js.toLowerCase rest)
      | EmptyString => String c EmptyString
      end
    else String c (Js.toLowerCase rest).
Proof. done. Qed.

(** Lower-casing goes through a dot: the text before the dot and the text
    from the dot on are lower-cased separately. *)
Lemma toLowerCase_app_dot (a b : string) :
  Js.toLowerCase (a +:+ String dot b)
  = Js.toLowerCase a +:+ Js.toLowerCase (String dot b).
Proof.
  remember (String.length a) as n eqn:Hn.
  revert a Hn. induction (lt_wf n) as [n _ IH]. intros a ->.
  destruct a as [| c a]; [done |].
  rewrite string_app_cons, !(toLowerCase_cons c).
  destruct (Js.between 65 90 c).
  { rewrite string_app_cons. f_equal. eapply IH; [| done]. simpl. lia. }
  destruct (Js.code c =? 195)%nat.
  - destruct a as [| d a].
    + change ("" +:+ String dot b) with (String dot b).
      by rewrite string_app_cons.
    + rewrite string_app_cons.
      destruct (Js.between 128 158 d && negb (Js.code d =? 151)%nat).
      * rewrite !string_app_cons. do 2 f_equal.
        eapply IH; [| done]. simpl. lia.
      * rewrite string_app_cons. f_equal.
        rewrite <- string_app_cons. eapply IH; [| done]. simpl. lia.
  - rewrite string_app_cons. f_equal. eapply IH; [| done]. simpl. lia.
Qed.

Lemma toLowerCase_dot_head ext r :
  Js.toLowerCase ext = String dot r → ∃ e, ext = String dot e.
Proof.
  destruct ext as [| c e]; [done |]. rewrite toLowerCase_cons.
  destruct (Js.between 65 90 c) eqn:Hc.
  { intros [= H _]. exfalso. revert Hc H.
    destruct c as [[] [] [] [] [] [] [] []]; by vm_compute. }
  destruct (Js.code c =? 195)%nat eqn:H195.
  - assert (c ≠ dot) as Hne by (intros ->; by vm_compute in H195).
    destruct e as [| d e]; [by intros [= ? _] |].
    destruct (_ && _); by intros [= ? _].
  - intros [= -> _]. by exists e.
Qed.

Lemma endsWith_lower_ext base ext low :
  Js.toLowerCase ext = String dot low →
  CSVUploader.endsWith (Js.toLowerCase (base +:+ ext)) (String dot low) = true.
Proof.
  intros Hext. destruct (toLowerCase_dot_head _ _ Hext) as [e ->].
  rewrite toLowerCase_app_dot, Hext. apply endsWith_app. eauto.
Qed.

Lemma endsWith_other_last (a x y : string) c d (x' y' : string) :
  String.rev x = String c x' → String.rev y = String d y' → c ≠ d →
  CSVUploader.endsWith (a +:+ x) y = false.
Proof.
  intros Hx Hy Hcd. apply not_true_is_false.
  intros [pre H]%endsWith_app. apply (f_equal String.rev) in H.
  rewrite !rev_app, Hx, Hy, !string_app_cons in H. congruence.
Qed.

(** X19. The extension of the file is read in any case. For a file of at
    most 10 MiB whose name ends in an extension that is .csv up to case,
    [handleFileUpload] is [processCSVFile] on the file; for one that is
    .xlsx or .xls up to case it is [processExcelFile]. A file over 10 MiB
    is stopped with an error message whatever its extension. *)
Theorem extension_is_read_in_any_case (svc : CSVUploader.Service)
    (f : CSVUploader.File) (base ext : string) (t : Supabase.Table)
    (st : CSVUploader.UploaderState) :
  CSVUploader.name f = base +:+ ext →
  let st1 :=
    CSVUploader.setError None
      (CSVUploader.setIsLoading true
         (CSVUploader.setFileName (CSVUploader.name f) st)) in
  ((CSVUploader.size f ≤ CSVUploader.maxSize)%Z →
   (Js.toLowerCase ext = ".csv" →
    CSVUploader.handleFileUpload svc (Some f) t st
    = CSVUploader.processCSVFile svc (CSVUploader.papa f) t st1)
   ∧ (Js.toLowerCase ext = ".xlsx" ∨ Js.toLowerCase ext = ".xls" →
      CSVUploader.handleFileUpload svc (Some f) t st
      = CSVUploader.processExcelFile svc (CSVUploader.excel f) t st1))
  ∧ ((CSVUploader.maxSize < CSVUploader.size f)%Z →
     is_Some (CSVUploader.error
                (CSVUploader.uploader
                   (CSVUploader.handleFileUpload svc (Some f) t st)))
     ∧ CSVUploader.guests (CSVUploader.handleFileUpload svc (Some f) t st)
       = t).
Proof.
  intros Hname. cbv zeta. split.
  - intros Hsize. unfold CSVUploader.handleFileUpload. rewrite Hname.
    rewrite (bool_decide_eq_false_2 (_ < _)%Z) by lia. split.
    + intros Hext. by rewrite (endsWith_lower_ext base ext "csv" Hext).
    + intros Hext.
      assert (CSVUploader.endsWith (Js.toLowerCase (base +:+ ext)) ".csv"
              = false) as ->.
      { destruct Hext as [Hext | Hext];
          destruct (toLowerCase_dot_head _ _ Hext) as [e ->];
          rewrite toLowerCase_app_dot, Hext;
          (eapply endsWith_other_last; [reflexivity | reflexivity | done]). }
      destruct Hext as [Hext | Hext].
      * by rewrite (endsWith_lower_ext base ext "xlsx" Hext).
      * rewrite (endsWith_lower_ext base ext "xls" Hext).
        by destruct (CSVUploader.endsWith _ ".xlsx").
  - intros Hsize. unfold CSVUploader.handleFileUpload.
    rewrite (bool_decide_eq_true_2 (_ < _)%Z) by done.
    destruct (_ && _); simpl; eauto.
Qed.

Lemma extension_is_read_in_any_case_witness :
  let f := {| CSVUploader.name := "Lista Final.CSV";
              CSVUploader.size := 2048%Z;
              CSVUploader.papa := CSVUploader.PapaError "aborted";
              CSVUploader.excel := CSVUploader.ReaderFailed |} in
  CSVUploader.error
    (CSVUploader.uploader
       (CSVUploader.handleFileUpload
          {| CSVUploader.deleteFault := None;
             CSVUploader.insertFault := None;
             CSVUploader.gen_random_uuid := λ k, pretty k;
             CSVUploader.now := 0%Z |}
          (Some f) []
          {| CSVUploader.isOpen := true; CSVUploader.isLoading := false;
             CSVUploader.error := None; CSVUploader.fileName := "" |}))
  = Some "Error al leer el archivo: aborted".
Proof.
  intros f.
  destruct (extension_is_read_in_any_case
              {| CSVUploader.deleteFault := None;
                 CSVUploader.insertFault := None;
                 CSVUploader.gen_random_uuid := λ k, pretty k;
                 CSVUploader.now := 0%Z |}
              f "Lista Final" ".CSV" []
              {| CSVUploader.isOpen := true; CSVUploader.isLoading := false;
                 CSVUploader.error := None; CSVUploader.fileName := "" |})
    as [H _]; [done |].
  destruct H as [H _]; [by vm_compute |].
  rewrite H; done.
Defined.

(** ** The page *)

Lemma tick_iter n :
  Index.motoIndex (Nat.iter n Index.tick Index.initial) = n mod 4.
Proof.
  induction n as [| n IH]; [done |].
  change (Index.motoIndex (Nat.iter (S n) Index.tick Index.initial))
    with ((Index.motoIndex (Nat.iter n Index.tick Index.initial) + 1) mod 4).
  rewrite IH, Nat.Div0.add_mod_idemp_l. f_equal. lia.
Qed.

(** X20. The colour of the animated header is always defined: after any
    tick the index is a position of [motoColors]; from the first render
    the index after [n] ticks is [n] modulo 4, so the colours cycle with
    period four; and a tick changes nothing else of the page. *)
Theorem moto_colour_is_always_defined :
  (∀ st, is_Some (Index.motoColors !! Index.motoIndex (Index.tick st)))
  ∧ (∀ n, Index.motoIndex (Nat.iter n Index.tick Index.initial) = n mod 4)
  ∧ (∀ st,
       Index.guestData (Index.tick st) = Index.guestData st
       ∧ Index.headers (Index.tick st) = Index.headers st
       ∧ Index.searchTerm (Index.tick st) = Index.searchTerm st).
Proof.
  split_and!; [| apply tick_iter | done].
  intros st. apply lookup_lt_is_Some.
  change (length Index.motoColors) with 4.
  change (Index.motoIndex (Index.tick st))
    with ((Index.motoIndex st + 1) mod 4).
  apply Nat.mod_upper_bound. done.
Qed.

(** X21. The page after an upload. If the upload ends with an error
    message the page is as before: its rows, its headers and its search
    term. Otherwise the page holds the rows and headers of the file, which
    are not empty, the search term is cleared, and the table filters
    nothing: it shows all its current rows. *)
Theorem page_after_upload (svc : CSVUploader.Service) (f : CSVUploader.File)
    (t : Supabase.Table) (st : CSVUploader.UploaderState)
    (page : Index.State) (table : GuestTable.State) :
  let o := CSVUploader.handleFileUpload svc (Some f) t st in
  let page' := Index.afterUpload o page in
  (is_Some (CSVUploader.error (CSVUploader.uploader o)) → page' = page)
  ∧ (CSVUploader.error (CSVUploader.uploader o) = None →
     CSVUploader.onDataLoad o
     = Some (Index.guestData page', Index.headers page')
     ∧ Index.guestData page' ≠ []
     ∧ Index.headers page' ≠ []
     ∧ Index.searchTerm page' = ""
     ∧ Index.motoIndex page' = Index.motoIndex page
     ∧ Index.tableRows page' table
       = GuestTable.currentData table (Index.guestData page')).
Proof.
  cbv zeta. unfold Index.afterUpload, Index.tableRows. upload_cases;
    (split; [intros [? ?]; try done | intros ?; try done]);
    repeat match goal with
           | H : bool_decide _ = false |- _ =>
               apply bool_decide_eq_false in H
           end;
    split_and!; try done; intros Heq; rewrite Heq in *; simpl in *; done.
Qed.

(** ** From the upload to the screen *)

Lemma confirmedSet_none (guests : list Guest.t) :
  Forall (λ g, Guest.confirmed g = false) guests →
  GuestTable.confirmedSet guests = ∅.
Proof.
  intros Hall. unfold GuestTable.confirmedSet.
  assert (filter (λ g, Guest.confirmed g = true) guests = []) as ->; [| done].
  induction Hall as [| g l Hg _ IH]; [done |].
  rewrite filter_cons, decide_False by congruence. exact IH.
Qed.

(** X22. From the upload to the screen. When an upload with rows and with
    pairwise distinct identifiers goes through and the table is loaded
    again, the rows on screen are exactly the rows of the file, each once
    and each with its two fields [_supabase_id] and [_guest_id] added, in
    some order (all records have the same date of creation); the rows
    parsed locally are not used, and no guest is confirmed. *)
Theorem uploaded_rows_are_shown (svc : CSVUploader.Service)
    (data local : list Row) (headers : list string) (t : Supabase.Table)
    (st : GuestTable.State) :
  CSVUploader.deleteFault svc = None →
  CSVUploader.insertFault svc = None →
  Forall (λ r, Guest.id r ≠ CSVUploader.nilUuid) t →
  NoDup (uploadIds data headers) →
  data ≠ [] →
  let t' := (CSVUploader.saveGuestsToSupabase svc data headers t).1 in
  let st' := (GuestTable.loadGuestsFromSupabase None t' st).1 in
  GuestTable.currentData st' local
  ≡ₚ imap (λ k row,
             <["_guest_id" := JStr (CSVUploader.guestIdOf headers row k)]>
               (<["_supabase_id" := JStr (CSVUploader.gen_random_uuid svc k)]>
                  row)) data
  ∧ GuestTable.confirmedGuests st' = ∅.
Proof.
  intros Hdel Hins Hids Hnd Hdata. cbv zeta.
  unfold CSVUploader.saveGuestsToSupabase.
  rewrite Hdel, Hins, (deleteWhereIdNeq_all _ _ Hids). cbn [snd].
  rewrite (insertRows_empty _ _ _ _ Hnd). cbn [fst].
  set (t' := imap _ (CSVUploader.guestsToInsert data headers)).
  assert (merge_sort Supabase.createdBefore t' ≡ₚ t') as Hperm
    by apply merge_sort_Permutation.
  simpl. split.
  - unfold GuestTable.currentData. simpl.
    rewrite bool_decide_eq_true_2.
    + rewrite Hperm. subst t'. unfold CSVUploader.guestsToInsert.
      rewrite fmap_imap.
      assert (∀ {A B C} (f : nat → B → C) (g : nat → A → B) (l : list A),
                imap f (imap g l) = imap (λ k x, f k (g k x)) l) as Himap.
      { intros A B C f g l. apply list_eq. intros k.
        rewrite !list_lookup_imap. by destruct (l !! k). }
      by rewrite Himap.
    + rewrite Hperm. subst t'. unfold CSVUploader.guestsToInsert.
      rewrite !length_imap. destruct data; [done | simpl; lia].
  - apply confirmedSet_none. rewrite Hperm. subst t'.
    apply Forall_forall. intros r (k & g & -> & Hg)%elem_of_lookup_imap.
    unfold CSVUploader.guestsToInsert in Hg.
    by apply list_lookup_imap_Some in Hg as (row & _ & ->).
Qed.

Lemma uploaded_rows_are_shown_witness :
  GuestTable.confirmedGuests
    (GuestTable.loadGuestsFromSupabase None
       (CSVUploader.saveGuestsToSupabase
          {| CSVUploader.deleteFault := None;
             CSVUploader.insertFault := None;
             CSVUploader.gen_random_uuid := λ k, pretty k;
             CSVUploader.now := 3%Z |}
          [ana; anaA1] ["Nombre"]
          [Guest.mk "uuid-9" "guest_1" ana true (Some 2%Z) 1%Z 2%Z]).1
       GuestTable.initial).1
  = ∅.
Proof.
  eapply proj2.
  apply (uploaded_rows_are_shown
           {| CSVUploader.deleteFault := None;
              CSVUploader.insertFault := None;
              CSVUploader.gen_random_uuid := λ k, pretty k;
              CSVUploader.now := 3%Z |}
           [ana; anaA1] [] ["Nombre"]
           [Guest.mk "uuid-9" "guest_1" ana true (Some 2%Z) 1%Z 2%Z]
           GuestTable.initial).
  - reflexivity.
  - reflexivity.
  - repeat constructor. by vm_compute.
  - by apply (bool_decide_unpack _).
  - done.
Defined.

(** ** A toggle and the load that follows it *)

(** X23. The load that follows a toggle confirms the optimistic update.
    From a state just loaded from a table with pairwise distinct
    identifiers, after a toggle that the store accepts on a guest that has
    a record, loading the table again gives the set of confirmed
    identifiers the toggle had already put in the state. *)
Theorem reload_confirms_the_toggle (now date : Timestamp)
    (t : Supabase.Table) (st0 : GuestTable.State) (r : Guest.t) :
  UniqueIds t →
  r ∈ t →
  let st := (GuestTable.loadGuestsFromSupabase None t st0).1 in
  let toggled :=
    GuestTable.handleConfirmGuest None now date (Guest.guest_id r) t st in
  GuestTable.confirmedGuests
    (GuestTable.loadGuestsFromSupabase None toggled.1.1 toggled.1.2).1
  = GuestTable.confirmedGuests toggled.1.2.
Proof.
  intros Hu Hr. cbv zeta.
  set (st := (GuestTable.loadGuestsFromSupabase None t st0).1).
  assert (∀ x, x ∈ t →
            Guest.guest_id x ∈ GuestTable.confirmedGuests st
            ↔ Guest.confirmed x = true) as Hagree
    by (intros x Hx; by apply load_agrees).
  pose proof (toggle_keeps_agreement None now date (Guest.guest_id r) t st
                Hagree) as Hagree'.
  assert (∀ g, g ∈ GuestTable.confirmedGuests st → g ∈ Guest.guest_id <$> t)
    as Hrec.
  { intros g Hg. subst st. simpl in Hg. unfold GuestTable.confirmedSet in Hg.
    apply elem_of_list_to_set, list_elem_of_fmap in Hg
      as (x & -> & [_ Hx]%list_elem_of_filter).
    rewrite merge_sort_Permutation in Hx. by apply list_elem_of_fmap_2. }
  destruct (handleConfirmGuest_ok now date (Guest.guest_id r) t st)
    as (toast & Heq & _).
  rewrite Heq in *. cbn [fst snd GuestTable.confirmedGuests] in *.
  set (t' := Supabase.setConfirmed _ _ _ _ <$> t) in *.
  set (X := if bool_decide _ then _ else _) in *.
  apply set_eq. intros g. simpl. unfold GuestTable.confirmedSet.
  rewrite elem_of_list_to_set, list_elem_of_fmap. split.
  - intros (x & -> & [Hc Hx]%list_elem_of_filter).
    rewrite merge_sort_Permutation in Hx. by apply Hagree'.
  - intros Hg.
    assert (g ∈ Guest.guest_id <$> t') as (x & -> & Hx)%list_elem_of_fmap.
    { subst t'. rewrite setConfirmed_guest_id. subst X.
      case_bool_decide as Hin.
      - apply elem_of_difference in Hg as [Hg _]. by apply Hrec.
      - apply elem_of_union in Hg as [Hg | ->%elem_of_singleton];
          [by apply Hrec | by apply list_elem_of_fmap_2]. }
    exists x. split; [done |]. apply list_elem_of_filter.
    rewrite merge_sort_Permutation. split; [by apply Hagree' | done].
Qed.

Lemma reload_confirms_the_toggle_witness :
  let r := Guest.mk "uuid-0" "A1" anaA1 false None 1%Z 1%Z in
  let st := (GuestTable.loadGuestsFromSupabase None [r] GuestTable.initial).1 in
  let toggled := GuestTable.handleConfirmGuest None 5%Z 4%Z "A1" [r] st in
  GuestTable.confirmedGuests
    (GuestTable.loadGuestsFromSupabase None toggled.1.1 toggled.1.2).1
  = GuestTable.confirmedGuests toggled.1.2.
Proof.
  intros r.
  apply (reload_confirms_the_toggle 5%Z 4%Z [r] GuestTable.initial r).
  - by apply (bool_decide_unpack _).
  - by left.
Defined.

(** ** What the parser does with a cell *)

Example parseDynamic_samples :
  CSVUploader.parseDynamic " 42 " = Some (JNum 42)
  ∧ CSVUploader.parseDynamic "-12." = Some (JNum (-12))
  ∧ CSVUploader.parseDynamic "+5" = Some (JStr "+5")
  ∧ CSVUploader.parseDynamic "12a" = Some (JStr "12a")
  ∧ CSVUploader.parseDynamic "2025-10-11" = Some (JStr "2025-10-11")
  ∧ CSVUploader.parseDynamic "9007199254740991"
    = Some (JNum 9007199254740991)
  ∧ CSVUploader.parseDynamic "9007199254740992"
    = Some (JStr "9007199254740992")
  ∧ CSVUploader.parseDynamic "3.14" = None
  ∧ CSVUploader.parseDynamic "1e3" = None
  ∧ CSVUploader.parseDynamic "2025-10-11T21:30Z" = None
  ∧ CSVUploader.parseDynamic "2025-10-11T21:30:00.5-03:00" = None
  ∧ CSVUploader.parseDynamic "2025-10-11T21:30:00" = Some (JStr "2025-10-11T21:30:00").
Proof. vm_compute. by repeat split. Qed.

Lemma chars_app (a b : string) :
  CSVUploader.chars (a +:+ b) = (CSVUploader.chars a ++ CSVUploader.chars b)%list.
Proof.
  induction a as [| c a IH]; [done |].
  change (c :: CSVUploader.chars (a +:+ b)
          = c :: (CSVUploader.chars a ++ CSVUploader.chars b)%list).
  by rewrite IH.
Qed.

Lemma trim_infix (s : string) : ∃ a b, s = a +:+ Js.trim s +:+ b.
Proof.
  unfold Js.trim, Js.trimEnd.
  destruct (dropWhite_suffix Js.whiteSpace (String.length s) s) as [a Ha].
  fold (Js.trimStart s) in Ha. set (u := Js.trimStart s) in *.
  destruct (dropWhite_suffix (map String.rev Js.whiteSpace)
              (String.length u) (String.rev u)) as [b Hb].
  exists a, (String.rev b).
  rewrite <- rev_app, <- Hb, rev_involutive. exact Ha.
Qed.

Lemma chars_trim_subseteq (s : string) c :
  c ∈ CSVUploader.chars (Js.trim s) → c ∈ CSVUploader.chars s.
Proof.
  destruct (trim_infix s) as (a & b & Hs). intros Hc.
  rewrite Hs, !chars_app, !elem_of_app. auto.
Qed.

Lemma isDigit_typing c : CSVUploader.isDigit c = true → numberOrDateChar c = true.
Proof. unfold numberOrDateChar. by intros ->. Qed.

Lemma isChar_typing n c :
  n ∈ [43; 45; 46; 58; 69; 84; 90; 101] →
  CSVUploader.isChar n c = true → numberOrDateChar c = true.
Proof.
  unfold CSVUploader.isChar, numberOrDateChar. intros Hn Hc.
  apply Nat.eqb_eq in Hc. subst n.
  rewrite bool_decide_eq_true_2 by done. apply orb_true_r.
Qed.

Lemma between_digit lo hi c :
  48 ≤ lo → hi ≤ 57 → Js.between lo hi c = true → CSVUploader.isDigit c = true.
Proof.
  unfold CSVUploader.isDigit, Js.between. intros Hlo Hhi H.
  apply andb_true_iff in H as [H1 H2].
  apply Nat.leb_le in H1. apply Nat.leb_le in H2.
  apply andb_true_iff. split; apply Nat.leb_le; lia.
Qed.

Lemma Digits_Typing d : Digits d → Typing d.
Proof. intros H. eapply Forall_impl; [exact H |]. intros c. apply isDigit_typing. Qed.

Lemma takeDigits_spec l :
  l = ((CSVUploader.takeDigits l).1 ++ (CSVUploader.takeDigits l).2)%list
  ∧ Digits (CSVUploader.takeDigits l).1.
Proof.
  induction l as [| c l [IH1 IH2]]; simpl; [by split |].
  destruct (CSVUploader.isDigit c) eqn:Hc; [| by split].
  destruct (CSVUploader.takeDigits l) as [d r]. simpl in *.
  split; [by rewrite <- IH1 | by constructor].
Qed.

Lemma exponent_typing l e : CSVUploader.exponent l = Some e → Typing l.
Proof.
  destruct l as [| c l1]; [by constructor |].
  unfold CSVUploader.exponent.
  destruct (CSVUploader.isChar 101 c || CSVUploader.isChar 69 c) eqn:Hc;
    [| done].
  assert (numberOrDateChar c = true) as Hc'.
  { apply orb_true_iff in Hc as [Hc | Hc];
      (eapply isChar_typing; [| exact Hc]); rewrite !elem_of_cons; tauto. }
  set (l2 := match l1 with [] => l1 | _ => _ end).
  assert (Typing l2 → Typing l1) as Hl2.
  { subst l2. destruct l1 as [| s r]; [done |].
    destruct (CSVUploader.isChar 45 s || CSVUploader.isChar 43 s) eqn:Hs;
      [| done].
    intros Hr. constructor; [| done].
    apply orb_true_iff in Hs as [Hs | Hs];
      (eapply isChar_typing; [| exact Hs]); rewrite !elem_of_cons; tauto. }
  destruct (takeDigits_spec l2) as [Hsplit Hd].
  destruct (CSVUploader.takeDigits l2) as [d r]. simpl in *.
  destruct (bool_decide (d ≠ [])); [| done].
  case_bool_decide as Hr; [| done]. subst r. intros _.
  constructor; [done |]. apply Hl2. rewrite Hsplit, app_nil_r.
  by apply Digits_Typing.
Qed.

Lemma Digits_HasDigit (d : list Ascii.ascii) : Digits d → d ≠ [] → HasDigit d.
Proof.
  destruct d as [| c d]; [done |]. intros Hd _.
  exists c. split; [left |]. by inversion Hd.
Qed.

Lemma numberShape_typing l :
  CSVUploader.numberShape l ≠ CSVUploader.NotNumber →
  Typing l ∧ HasDigit l.
Proof.
  unfold CSVUploader.numberShape.
  destruct (match l with [] => (false, l) | _ => _ end)
    as [negative l1] eqn:Hsign.
  assert ((Typing l1 → Typing l) ∧ (HasDigit l1 → HasDigit l)) as [Ht1 Hd1].
  { destruct l as [| c r]; [by inversion Hsign |].
    destruct (CSVUploader.isChar 45 c) eqn:Hc; inversion Hsign; subst;
      [| done].
    split.
    - intros Hr. constructor; [| done].
      eapply isChar_typing; [| exact Hc]. rewrite !elem_of_cons; tauto.
    - intros (x & Hx & Hdx). exists x. split; [by right | done]. }
  destruct (takeDigits_spec l1) as [Hs1 Hdig1].
  destruct (CSVUploader.takeDigits l1) as [d1 l2]. simpl in Hs1, Hdig1.
  destruct (match l2 with [] => (false, l2) | _ => _ end)
    as [dot l3] eqn:Hdot.
  assert ((Typing l3 → Typing l2)
          ∧ (dot = true → HasDigit l3 → HasDigit l2)) as [Ht2 Hd2].
  { destruct l2 as [| c r]; [by inversion Hdot |].
    destruct (CSVUploader.isChar 46 c) eqn:Hc; inversion Hdot; subst;
      [| done].
    split.
    - intros Hr. constructor; [| done].
      eapply isChar_typing; [| exact Hc]. rewrite !elem_of_cons; tauto.
    - intros _ (x & Hx & Hdx). exists x. split; [by right | done]. }
  destruct (if dot then CSVUploader.takeDigits l3 else ([], l3))
    as [d2 l4] eqn:Hfrac.
  assert (l3 = (d2 ++ l4)%list ∧ Digits d2 ∧ (d2 ≠ [] → dot = true))
    as (Hs3 & Hdig2 & Hdot2).
  { destruct dot.
    - destruct (takeDigits_spec l3) as [Hs Hd]. rewrite Hfrac in Hs, Hd.
      by simpl in *.
    - inversion Hfrac; subst. by repeat split. }
  destruct (bool_decide (d1 ≠ []) || dot && bool_decide (d2 ≠ [])) eqn:Hsome;
    [| done].
  destruct (CSVUploader.exponent l4) as [e |] eqn:He; [| done]. intros _.
  apply exponent_typing in He. split.
  - apply Ht1. rewrite Hs1. apply Forall_app. split; [by apply Digits_Typing |].
    apply Ht2. rewrite Hs3. apply Forall_app.
    split; [by apply Digits_Typing | done].
  - apply Hd1. rewrite Hs1.
    apply orb_true_iff in Hsome as [Hn1 | Hn2].
    + apply bool_decide_eq_true in Hn1.
      destruct (Digits_HasDigit d1 Hdig1 Hn1) as (x & Hx & Hdx).
      exists x. split; [| done]. apply elem_of_app. by left.
    + apply andb_true_iff in Hn2 as [Hdot' Hn2].
      apply bool_decide_eq_true in Hn2.
      destruct (Digits_HasDigit d2 Hdig2 Hn2) as (x & Hx & Hdx).
      destruct (Hd2 Hdot') as (y & Hy & Hdy).
      { exists x. split; [| done]. rewrite Hs3. apply elem_of_app. by left. }
      exists y. split; [| done]. apply elem_of_app. by right.
Qed.

Lemma matchClasses_typing classes l r :
  Forall TypingClass classes →
  CSVUploader.matchClasses classes l = Some r →
  ∃ p, l = (p ++ r)%list ∧ Typing p.
Proof.
  intros Hcl. revert l. induction Hcl as [| cl cs Hc _ IH]; intros l; simpl.
  - intros [= ->]. by exists [].
  - destruct l as [| c l]; [done |].
    destruct (cl c) eqn:Hclc; [| done]. intros Hm.
    destruct (IH _ Hm) as (p & -> & Hp).
    exists (c :: p). split; [done |]. constructor; [by apply Hc | done].
Qed.

Lemma TypingClass_isChar n :
  n ∈ [43; 45; 46; 58; 69; 84; 90; 101] → TypingClass (CSVUploader.isChar n).
Proof. intros Hn c. by apply isChar_typing. Qed.

Lemma TypingClass_between lo hi :
  48 ≤ lo → hi ≤ 57 → TypingClass (Js.between lo hi).
Proof.
  intros Hlo Hhi c Hc. apply isDigit_typing. by eapply between_digit.
Qed.

Lemma TypingClass_isDigit : TypingClass CSVUploader.isDigit.
Proof. intros c. apply isDigit_typing. Qed.

Ltac typing_class :=
  first
    [ apply TypingClass_isDigit
    | apply TypingClass_between; lia
    | apply TypingClass_isChar; rewrite !elem_of_cons; tauto
    | let c := fresh "c" in
      let H := fresh "H" in
      intros c [H | H]%orb_true_iff;
      (eapply isChar_typing; [| exact H]); rewrite !elem_of_cons; tauto ].

Ltac typing_classes :=
  repeat (apply Forall_cons_2; [typing_class |]); apply Forall_nil_2.

Lemma zone_typing l : CSVUploader.zone l = true → Typing l.
Proof.
  unfold CSVUploader.zone.
  destruct (CSVUploader.matchClasses _ l) as [r |] eqn:Hm.
  - apply matchClasses_typing in Hm as (p & -> & Hp); [| typing_classes].
    destruct r as [| x r].
    + intros _. by rewrite app_nil_r.
    + destruct p as [| c [| c' p]]; simpl; try done.
      destruct r; [| done]. intros Hx. repeat constructor.
      eapply isChar_typing; [| exact Hx]. rewrite !elem_of_cons; tauto.
  - destruct l as [| c [| c' l]]; try done.
    intros Hx. repeat constructor.
    eapply isChar_typing; [| exact Hx]. rewrite !elem_of_cons; tauto.
Qed.

Lemma isoDate_typing l :
  CSVUploader.isoDate l = true → Typing l ∧ HasDigit l.
Proof.
  unfold CSVUploader.isoDate.
  destruct (CSVUploader.matchClasses _ l) as [r |] eqn:Hm; [| done].
  assert (HasDigit l) as Hdig.
  { destruct l as [| c l]; [done |]. simpl in Hm.
    destruct (CSVUploader.isDigit c) eqn:Hc; [| done].
    exists c. split; [left | done]. }
  apply matchClasses_typing in Hm as (p & -> & Hp); [| typing_classes].
  intros Hz. split; [| done]. apply Forall_app. split; [done |].
  destruct (CSVUploader.matchClasses _ r) as [r1 |] eqn:Hs;
    [| by apply zone_typing].
  apply matchClasses_typing in Hs as (q & -> & Hq); [| typing_classes].
  apply Forall_app. split; [done |].
  destruct r1 as [| c r2]; [done |]. cbv beta iota in Hz.
  destruct (CSVUploader.isChar 46 c) eqn:Hc; [| by apply zone_typing].
  destruct (takeDigits_spec r2) as [Hsplit Hd].
  destruct (CSVUploader.takeDigits r2) as [d r3]. simpl in *.
  apply andb_true_iff in Hz as [_ Hz]. apply zone_typing in Hz.
  constructor.
  { eapply isChar_typing; [| exact Hc]. rewrite !elem_of_cons; tauto. }
  rewrite Hsplit. apply Forall_app. split; [by apply Digits_Typing | done].
Qed.

(** Text made of digits. *)

Lemma digit_headClean (ws : list string) c s :
  forallb (λ w, match w with
                | String a _ => negb (CSVUploader.isDigit a)
                | EmptyString => false
                end) ws = true →
  CSVUploader.isDigit c = true → headClean ws (String c s).
Proof.
  intros Hws Hc w Hw. rewrite forallb_forall in Hws.
  apply list_elem_of_In, Hws in Hw. destruct w as [| a w]; [done |].
  simpl. destruct (Ascii.eqb a c) eqn:Hac; [| done].
  apply Ascii.eqb_eq in Hac. subst a. by rewrite Hc in Hw.
Qed.

Lemma chars_rev (s : string) :
  CSVUploader.chars (String.rev s) = reverse (CSVUploader.chars s).
Proof.
  induction s as [| c s IH]; [done |].
  rewrite rev_cons, chars_app, IH.
  change (CSVUploader.chars (String c s)) with (c :: CSVUploader.chars s).
  by rewrite reverse_cons.
Qed.

Lemma Digits_head (s : string) :
  Digits (CSVUploader.chars s) → s ≠ "" →
  ∃ c s', s = String c s' ∧ CSVUploader.isDigit c = true.
Proof.
  destruct s as [| c s]; [done |]. intros Hd _.
  exists c, s. split; [done |]. by inversion Hd.
Qed.

Lemma trim_digits (s : string) :
  Digits (CSVUploader.chars s) → Js.trim s = s.
Proof.
  intros Hd. destruct (decide (s = "")) as [-> | Hne]; [done |].
  unfold Js.trim.
  assert (Js.trimStart s = s) as ->.
  { destruct (Digits_head s Hd Hne) as (c & s' & -> & Hc).
    apply dropWhite_clean_id. by apply digit_headClean. }
  unfold Js.trimEnd.
  assert (Digits (CSVUploader.chars (String.rev s))) as Hr.
  { rewrite chars_rev. by apply Forall_reverse. }
  assert (String.rev s ≠ "") as Hrne.
  { intros H. apply Hne. by rewrite <- (rev_involutive s), H. }
  destruct (Digits_head _ Hr Hrne) as (c & s' & Hs & Hc).
  rewrite Hs, dropWhite_clean_id by (by apply digit_headClean).
  by rewrite <- Hs, rev_involutive.
Qed.

Lemma takeDigits_all l : Digits l → CSVUploader.takeDigits l = (l, []).
Proof.
  induction 1 as [| c l Hc _ IH]; simpl; [done |]. by rewrite Hc, IH.
Qed.

Lemma isDigit_code c :
  CSVUploader.isDigit c = true → 48 ≤ Js.code c ≤ 57.
Proof.
  unfold CSVUploader.isDigit, Js.between.
  intros [H1 H2]%andb_true_iff.
  apply Nat.leb_le in H1. apply Nat.leb_le in H2. lia.
Qed.

Lemma numberShape_digits l :
  Digits l → l ≠ [] →
  CSVUploader.numberShape l = CSVUploader.IntegerText false l.
Proof.
  intros Hd Hne. unfold CSVUploader.numberShape.
  destruct l as [| c r]; [done |].
  assert (CSVUploader.isChar 45 c = false) as ->.
  { inversion Hd as [| ? ? Hc _]; subst. apply isDigit_code in Hc.
    unfold CSVUploader.isChar. apply Nat.eqb_neq. lia. }
  by rewrite (takeDigits_all _ Hd).
Qed.

Lemma digitsValue_bound l acc :
  Digits l → (0 ≤ acc)%Z →
  (0 ≤ fold_left (λ a c, a * 10 + Z.of_nat (Js.code c - 48)) l acc
   < (acc + 1) * 10 ^ Z.of_nat (length l))%Z.
Proof.
  intros Hd. revert acc. induction Hd as [| c l Hc _ IH]; intros acc Hacc.
  - simpl. lia.
  - cbn [fold_left length]. apply isDigit_code in Hc.
    specialize (IH (acc * 10 + Z.of_nat (Js.code c - 48))%Z).
    rewrite Nat2Z.inj_succ, Z.pow_succ_r by lia.
    assert (0 < 10 ^ Z.of_nat (length l))%Z by (apply Z.pow_pos_nonneg; lia).
    nia.
Qed.

Lemma chars_length (s : string) : length (CSVUploader.chars s) = String.length s.
Proof. induction s as [| c s IH]; simpl; [done | by rewrite <- IH]. Qed.

Lemma decimal_bound (s : string) :
  Digits (CSVUploader.chars s) → String.length s ≤ 15 →
  (- CSVUploader.maxFloat < CSVUploader.decimal s < CSVUploader.maxFloat)%Z.
Proof.
  intros Hd Hlen. unfold CSVUploader.decimal, CSVUploader.digitsValue.
  pose proof (digitsValue_bound _ 0%Z Hd ltac:(lia)) as [H0 H1].
  rewrite chars_length in H1.
  assert (10 ^ Z.of_nat (String.length s) ≤ 10 ^ 15)%Z
    by (apply Z.pow_le_mono_r; lia).
  change CSVUploader.maxFloat with 9007199254740992%Z.
  change (10 ^ 15)%Z with 1000000000000000%Z in *. lia.
Qed.

Lemma not_word (value : string) :
  value ∉ ["true"; "TRUE"; "false"; "FALSE"] →
  CSVUploader.parseDynamic value
  = match CSVUploader.numberShape (CSVUploader.chars (Js.trim value)) with
    | CSVUploader.IntegerText negative digits =>
        let n := (if negative then - CSVUploader.digitsValue digits
                  else CSVUploader.digitsValue digits)%Z in
        if bool_decide (- CSVUploader.maxFloat < n < CSVUploader.maxFloat)%Z
        then Some (JNum n)
        else CSVUploader.dateOrText value
    | CSVUploader.FloatText => None
    | CSVUploader.NotNumber => CSVUploader.dateOrText value
    end.
Proof.
  intros Hv. unfold CSVUploader.parseDynamic.
  rewrite bool_decide_eq_false_2.
  2: { intros [-> | ->]; apply Hv; rewrite !elem_of_cons; tauto. }
  rewrite bool_decide_eq_false_2; [done |].
  intros [-> | ->]; apply Hv; rewrite !elem_of_cons; tauto.
Qed.

Lemma HasDigit_existsb l : HasDigit l → existsb CSVUploader.isDigit l = true.
Proof.
  intros (c & Hc & Hd). apply existsb_exists. exists c.
  split; [by apply list_elem_of_In | done].
Qed.

Lemma HasDigit_trim (value : string) :
  HasDigit (CSVUploader.chars (Js.trim value)) →
  HasDigit (CSVUploader.chars value).
Proof.
  intros (c & Hc & Hd). exists c. split; [by apply chars_trim_subseteq | done].
Qed.

Lemma Typing_elem l c : Typing l → c ∈ l → numberOrDateChar c = true.
Proof. intros Hl Hc. by apply (proj1 (Forall_forall _ _) Hl). Qed.

Lemma kept_without_digit (value : string) :
  value ∉ ["true"; "TRUE"; "false"; "FALSE"; ""] →
  existsb CSVUploader.isDigit (CSVUploader.chars value) = false →
  CSVUploader.parseDynamic value = Some (JStr value).
Proof.
  intros Hv Hnd.
  assert (¬ HasDigit (CSVUploader.chars value)) as Hno.
  { intros H%HasDigit_existsb. congruence. }
  rewrite not_word.
  2: { intros H. apply Hv. rewrite !elem_of_cons in *. tauto. }
  destruct (CSVUploader.numberShape _) eqn:Hshape.
  2,3: exfalso; apply Hno, HasDigit_trim;
       apply numberShape_typing; by rewrite Hshape.
  unfold CSVUploader.dateOrText.
  destruct (CSVUploader.isoDate _) eqn:Hiso.
  { exfalso. by apply Hno, isoDate_typing. }
  rewrite bool_decide_eq_false_2; [done |].
  intros ->. apply Hv. rewrite !elem_of_cons. tauto.
Qed.

Lemma kept_with_other_char (value : string) c :
  value ∉ ["true"; "TRUE"; "false"; "FALSE"] →
  c ∈ CSVUploader.chars (Js.trim value) →
  numberOrDateChar c = false →
  CSVUploader.parseDynamic value = Some (JStr value).
Proof.
  intros Hv Hc Hother. rewrite not_word by done.
  destruct (CSVUploader.numberShape _) eqn:Hshape.
  2,3: exfalso;
       assert (numberOrDateChar c = true);
       [ eapply Typing_elem; [| exact Hc];
         apply numberShape_typing; by rewrite Hshape
       | congruence ].
  apply chars_trim_subseteq in Hc.
  unfold CSVUploader.dateOrText.
  destruct (CSVUploader.isoDate _) eqn:Hiso.
  { exfalso. apply isoDate_typing in Hiso as [Ht _].
    pose proof (Typing_elem _ _ Ht Hc). congruence. }
  rewrite bool_decide_eq_false_2; [done |].
  intros ->. by apply elem_of_nil in Hc.
Qed.

Lemma digits_are_typed (value : string) :
  value ≠ "" →
  forallb CSVUploader.isDigit (CSVUploader.chars value) = true →
  String.length value ≤ 15 →
  CSVUploader.parseDynamic value = Some (JNum (CSVUploader.decimal value)).
Proof.
  intros Hne Hall Hlen.
  assert (Digits (CSVUploader.chars value)) as Hd.
  { apply Forall_forall. intros c Hc%list_elem_of_In.
    by apply (proj1 (forallb_forall _ _) Hall). }
  rewrite not_word.
  2: { intros Hin.
       repeat (apply elem_of_cons in Hin as [-> | Hin]; [done |]).
       by apply elem_of_nil in Hin. }
  rewrite (trim_digits _ Hd), numberShape_digits; [| done |].
  2: { destruct value; [done |]. done. }
  cbv zeta. fold (CSVUploader.decimal value).
  by rewrite bool_decide_eq_true_2 by by apply decimal_bound.
Qed.



